(** * Gesture classifier and interaction controller of the particle scene

    A shallow embedding of the decision logic of
    - [src/hooks/useHandTracking.ts]  (the per-frame landmark classifier),
    - [src/App.tsx]                   (the gesture-driven mode transitions),
    - [components/MagicParticles]     (the pinch selection and its reset effect),
    - [types.ts]                      (the enumerations and the [HandData] record).

    JavaScript numbers are IEEE-754 binary64 values, which is what the
    primitive floats of Rocq are, so coordinates are [float] and [+ - * /]
    and [<] are the primitive operations.  [Math.hypot], whose result
    ECMAScript only specifies up to an implementation approximation, is a
    parameter of the classifier; [Math_hypot] is the textbook instance used
    to evaluate concrete frames. *)

From Stdlib Require Import List Bool Arith ZArith QArith Qround Lia String.
From Stdlib Require Import Floats.
Import ListNotations.
Close Scope Q_scope.

Set Warnings "-inexact-float".

(** ** types.ts *)

Inductive AppMode : Type := TREE | SCATTER | PHOTO_VIEW.

Inductive GestureType : Type := NONE | OPEN_HAND | FIST | PINCH.

Record HandData : Type := mkHandData {
  gesture : GestureType;
  x : float;          (* Normalized 0-1 *)
  y : float;          (* Normalized 0-1 *)
  isPresent : bool
}.

Definition AppMode_eqb (a b : AppMode) : bool :=
  match a, b with
  | TREE, TREE | SCATTER, SCATTER | PHOTO_VIEW, PHOTO_VIEW => true
  | _, _ => false
  end.

Definition GestureType_eqb (a b : GestureType) : bool :=
  match a, b with
  | NONE, NONE | OPEN_HAND, OPEN_HAND | FIST, FIST | PINCH, PINCH => true
  | _, _ => false
  end.

(** ** Abrupt completions

    The only way the modelled code fails is a property read on [undefined],
    which raises a [TypeError]. *)

Inductive JsError : Type := TypeError.

Inductive completion (A : Type) : Type :=
| Normal (a : A)
| Throw (e : JsError).

Arguments Normal {A} a.
Arguments Throw {A} e.

Definition bind {A B : Type} (c : completion A) (k : A -> completion B)
  : completion B :=
  match c with
  | Normal a => k a
  | Throw e => Throw e
  end.

Notation "v <- c ;; k" := (bind c (fun v => k))
  (at level 61, c at next level, right associativity).

(** ** hooks/useHandTracking.ts *)

Module Landmark.
Record t : Type := mk { x : float; y : float; z : float }.
End Landmark.

(** [Results] of the pose model; [image] and [multiHandedness] are never
    read.  The field is optional because [onResults] tests it for
    truthiness before reading its length. *)
Record Results : Type := mkResults {
  multiHandLandmarks : option (list (list Landmark.t))
}.

(** [landmarks[i].f]: indexing past the end yields [undefined], and reading
    a property of [undefined] throws. *)
Definition rd (landmarks : list Landmark.t) (i : nat) (f : Landmark.t -> float)
  : completion float :=
  match nth_error landmarks i with
  | Some l => Normal (f l)
  | None => Throw TypeError
  end.

(** The state published by [useState<HandData>] before any frame. *)
Definition initialHandData : HandData :=
  {| gesture := NONE; x := 0.5%float; y := 0.5%float; isPresent := false |}.

(** The textbook [Math.hypot] on two arguments. *)
Definition Math_hypot (a b : float) : float :=
  PrimFloat.sqrt (a * a + b * b)%float.

Section OnResults.

Variable hypot : float -> float -> float.

Local Open Scope float_scope.

(* Calculate Centroid *)
Definition centerX (landmarks : list Landmark.t) : completion float :=
  palmBase_x <- rd landmarks 0 Landmark.x ;;
  middleFingerKnuckle_x <- rd landmarks 9 Landmark.x ;;
  Normal ((palmBase_x + middleFingerKnuckle_x) / 2).

Definition centerY (landmarks : list Landmark.t) : completion float :=
  palmBase_y <- rd landmarks 0 Landmark.y ;;
  middleFingerKnuckle_y <- rd landmarks 9 Landmark.y ;;
  Normal ((palmBase_y + middleFingerKnuckle_y) / 2).

(* Detect Gestures: landmarks[tip].y < landmarks[pip].y *)
Definition isFingerOpen (landmarks : list Landmark.t) (tip pip : nat)
  : completion bool :=
  tip_y <- rd landmarks tip Landmark.y ;;
  pip_y <- rd landmarks pip Landmark.y ;;
  Normal (tip_y <? pip_y).

Definition openFingersCount (landmarks : list Landmark.t) : completion nat :=
  isIndexOpen <- isFingerOpen landmarks 8 6 ;;
  isMiddleOpen <- isFingerOpen landmarks 12 10 ;;
  isRingOpen <- isFingerOpen landmarks 16 14 ;;
  isPinkyOpen <- isFingerOpen landmarks 20 18 ;;
  Normal (List.length
            (filter (fun b : bool => b)
                    [isIndexOpen; isMiddleOpen; isRingOpen; isPinkyOpen])).

(* Dynamic Scale: Distance from wrist to middle finger knuckle *)
Definition handScale (landmarks : list Landmark.t) : completion float :=
  x0 <- rd landmarks 0 Landmark.x ;;
  x9 <- rd landmarks 9 Landmark.x ;;
  y0 <- rd landmarks 0 Landmark.y ;;
  y9 <- rd landmarks 9 Landmark.y ;;
  Normal (hypot (x0 - x9) (y0 - y9)).

(* Pinch Distance: Thumb tip to Index tip *)
Definition pinchDist (landmarks : list Landmark.t) : completion float :=
  x8 <- rd landmarks 8 Landmark.x ;;
  x4 <- rd landmarks 4 Landmark.x ;;
  y8 <- rd landmarks 8 Landmark.y ;;
  y4 <- rd landmarks 4 Landmark.y ;;
  Normal (hypot (x8 - x4) (y8 - y4)).

(** [onResults], as a function of the previous published state: the
    result is the state after [setHandData], or the exception that
    escapes the callback before [setHandData] is reached. *)
Definition onResults (results : Results) (prev : HandData)
  : completion HandData :=
  match multiHandLandmarks results with
  | Some (landmarks :: _) =>
      centerX <- centerX landmarks ;;
      centerY <- centerY landmarks ;;
      openFingersCount <- openFingersCount landmarks ;;
      handScale <- handScale landmarks ;;
      pinchDist <- pinchDist landmarks ;;
      let gesture :=
        if (openFingersCount =? 0)%nat then FIST
        else if (pinchDist <? 0.05) || (pinchDist <? handScale * 0.5)
             then PINCH
        else if (3 <=? openFingersCount)%nat then OPEN_HAND
        else NONE in
      Normal {| gesture := gesture;
                x := 1 - centerX;   (* Mirror horizontally *)
                y := centerY;
                isPresent := true |}
  | _ =>
      Normal {| gesture := NONE;
                x := x prev;
                y := y prev;
                isPresent := false |}
  end.

(** One turn of [processFrame] on a playing video: [hands.send] hands
    the results of the pose model to [onResults]; whatever the callback
    throws ends, at the latest, in the empty [catch (e) { }] around
    [send], so the published state is simply not updated and the loop
    reschedules itself. *)
Definition processFrame (results : Results) (prev : HandData) : HandData :=
  match onResults results prev with
  | Normal next => next
  | Throw _ => prev
  end.

(** The published state after a sequence of frames. *)
Definition track (frames : list Results) : HandData :=
  fold_left (fun h r => processFrame r h) frames initialHandData.

End OnResults.

(** ** App.tsx and components/MagicParticles.tsx

    [mode] and [photos] are the [useState] cells of [App],
    [activePhotoIndex] the one of [MagicParticles].  A callback does not
    change them directly: it issues setter calls, which React commits
    before the next callback runs. *)

Inductive Update : Type :=
| setMode (m : AppMode)
| setActivePhotoIndex (i : option nat).

(** [modeEffectPending] is React's bookkeeping for
    [useEffect(..., [mode])]: the effect is due after the first render
    and after every render in which [mode] differs from the previous
    one. *)
Record Store : Type := mkStore {
  mode : AppMode;
  photos : list string;
  activePhotoIndex : option nat;
  modeEffectPending : bool
}.

Definition initialStore : Store :=
  {| mode := TREE; photos := []; activePhotoIndex := None;
     modeEffectPending := true |}.

Definition dispatch (s : Store) (u : Update) : Store :=
  match u with
  | setMode m =>
      {| mode := m; photos := photos s;
         activePhotoIndex := activePhotoIndex s;
         modeEffectPending :=
           modeEffectPending s || negb (AppMode_eqb m (mode s)) |}
  | setActivePhotoIndex i =>
      {| mode := mode s; photos := photos s;
         activePhotoIndex := i;
         modeEffectPending := modeEffectPending s |}
  end.

Definition commit (us : list Update) (s : Store) : Store :=
  fold_left dispatch us s.

(** The part of [ParticleData] the selection depends on: [id] is the [i]
    of [`photo-${i}`]; positions, colour and scale belong to the
    rendering layer. *)
Record ParticleData : Type := mkParticle {
  id : nat;
  photoUrl : string
}.

Definition photoParticles (photos : list string) : list ParticleData :=
  match photos with
  | [] => []
  | _ => map (fun p => {| id := fst p; photoUrl := snd p |})
             (combine (seq 0 (List.length photos)) photos)
  end.

(** Gesture State Transition Logic ([useEffect] of [App]). *)
Definition App_useEffect (handData : HandData) (mode : AppMode)
  : list Update :=
  if negb (isPresent handData) then []
  else if GestureType_eqb (gesture handData) FIST
          && negb (AppMode_eqb mode TREE)
       then [setMode TREE]
  else if GestureType_eqb (gesture handData) OPEN_HAND
          && AppMode_eqb mode TREE
       then [setMode SCATTER]
  else if GestureType_eqb (gesture handData) OPEN_HAND
          && AppMode_eqb mode PHOTO_VIEW
       then [setMode SCATTER]   (* Release photo *)
  else [].

(** [Math.floor(Math.random() * n)], for a draw [random] of
    [Math.random()], which lies in [0, 1).  The product is taken exactly;
    rounding it to binary64 cannot reach [n], so the indices that can come
    out are the same. *)
Definition randomIndex (random : Q) (n : nat) : nat :=
  Z.to_nat (Qfloor (random * inject_Z (Z.of_nat n))).

(** Gesture State Switching Logic ([useFrame] of [MagicParticles]);
    [groupRef_current] tells whether [groupRef.current] is set. *)
Definition MagicParticles_useFrame (groupRef_current : bool) (random : Q)
    (handData : HandData) (mode : AppMode) (activePhotoIndex : option nat)
    (photoParticles : list ParticleData) : list Update :=
  if negb groupRef_current then []
  else if GestureType_eqb (gesture handData) PINCH
          && AppMode_eqb mode SCATTER
          && match activePhotoIndex with None => true | Some _ => false end
          && (0 <? List.length photoParticles)%nat
       then [setActivePhotoIndex
               (Some (randomIndex random (List.length photoParticles)));
             setMode PHOTO_VIEW]
  else [].

(** [useEffect(() => { if (mode !== PHOTO_VIEW) setActivePhotoIndex(null) },
    [mode])]. *)
Definition MagicParticles_useEffect (mode : AppMode) : list Update :=
  if negb (AppMode_eqb mode PHOTO_VIEW) then [setActivePhotoIndex None]
  else [].

(** [setPhotos(prev => [...prev, ...newPhotos])]. *)
Definition handlePhotoUpload (newPhotos : list string) (s : Store) : Store :=
  {| mode := mode s; photos := photos s ++ newPhotos;
     activePhotoIndex := activePhotoIndex s;
     modeEffectPending := modeEffectPending s |}.

(** *** One callback at a time *)

Definition stepApp (h : HandData) (s : Store) : Store :=
  commit (App_useEffect h (mode s)) s.

Definition stepFrame (groupRef_current : bool) (random : Q) (h : HandData)
    (s : Store) : Store :=
  commit (MagicParticles_useFrame groupRef_current random h (mode s)
            (activePhotoIndex s) (photoParticles (photos s))) s.

(** The [mode] effect, when it is due.  It runs on the mode of the store,
    which is the mode of the render that scheduled it as long as no other
    callback has changed the mode since; [Scheduled] below keeps the mode
    of the render with each effect and drops that assumption. *)
Definition stepModeEffect (s : Store) : Store :=
  if modeEffectPending s then
    let s' := commit (MagicParticles_useEffect (mode s)) s in
    {| mode := mode s'; photos := photos s';
       activePhotoIndex := activePhotoIndex s';
       modeEffectPending := false |}
  else s.

Definition unitDraw (random : Q) : Prop := (0 <= random /\ random < 1)%Q.

(** Any callback may run next, under whatever hand data the latest render
    closed over. *)
Inductive step : Store -> Store -> Prop :=
| step_app : forall h s, step s (stepApp h s)
| step_frame : forall g random h s,
    unitDraw random -> step s (stepFrame g random h s)
| step_effect : forall s, step s (stepModeEffect s)
| step_upload : forall newPhotos s, step s (handlePhotoUpload newPhotos s).

Inductive reachable : Store -> Prop :=
| reach_init : reachable initialStore
| reach_step : forall s s', reachable s -> step s s' -> reachable s'.

(** *** One hand signal at a time

    A new [handData] re-renders [App]: its effect runs, then the [mode]
    effect if the mode changed; the next animation frame runs [useFrame]
    on the mounted group, and a mode change it makes is followed by the
    [mode] effect again. *)
Definition onSignal (random : Q) (h : HandData) (s : Store) : Store :=
  stepModeEffect (stepFrame true random h (stepModeEffect (stepApp h s))).


(** ** Concrete frames and signals used below *)

Definition pt (a b : float) : Landmark.t :=
  {| Landmark.x := a; Landmark.y := b; Landmark.z := 0%float |}.

(** A hand of 21 landmarks: wrist [p0], thumb tip [p4], index PIP and tip
    [p6] and [p8], middle-finger knuckle [p9]; the three other fingers
    have their PIP joints at height [pipY] and their tips at [tipY]. *)
Definition hand (p0 p4 p6 p8 p9 : Landmark.t) (tipY pipY : float)
  : list Landmark.t :=
  let o := pt 0.5 0.5 in
  [ p0; o; o; o; p4; o; p6; o; p8; p9;
    pt 0.5 pipY; o; pt 0.5 tipY; o;
    pt 0.5 pipY; o; pt 0.5 tipY; o;
    pt 0.5 pipY; o; pt 0.5 tipY ]%float.

(** Four fingers up, thumb a quarter of the image away from the index. *)
Definition openPalm : list Landmark.t :=
  hand (pt 0.5 0.75) (pt 0.25 0.25) (pt 0.5 0.375) (pt 0.5 0.25)
       (pt 0.5 0.5) 0.25 0.375.

(** Four fingers curled, thumb tip exactly on the index tip. *)
Definition closedFist : list Landmark.t :=
  hand (pt 0.5 0.75) (pt 0.5 0.5) (pt 0.5 0.375) (pt 0.5 0.5)
       (pt 0.5 0.5) 0.5 0.375.

(** A distant hand: palm length 1/256 of the image, four fingers up, thumb
    and index 1/32 apart, sixteen times the relative pinch threshold. *)
Definition distantPalm : list Landmark.t :=
  hand (pt 0.5 0.5) (pt 0.53125 0.25) (pt 0.5 0.375) (pt 0.5 0.25)
       (pt 0.5 0.49609375) 0.25 0.375.

(** Malformed inputs: five landmarks, and twenty-two. *)
Definition shortHand : list Landmark.t := firstn 5 openPalm.

Definition longHand : list Landmark.t := openPalm ++ [pt 0 0].

Definition frameOf (landmarks : list Landmark.t) : Results :=
  {| multiHandLandmarks := Some [landmarks] |}.

Definition signal (g : GestureType) (present : bool) : HandData :=
  {| gesture := g; x := 0.5%float; y := 0.5%float; isPresent := present |}.

Definition half : Q := (1 # 2)%Q.

(** The store in [SCATTER] with the given photos and nothing selected. *)
Definition scattered (urls : list string) : Store :=
  {| mode := SCATTER; photos := urls; activePhotoIndex := None;
     modeEffectPending := false |}.

(** The store in [PHOTO_VIEW] on photo [i]. *)
Definition viewing (urls : list string) (i : nat) : Store :=
  {| mode := PHOTO_VIEW; photos := urls; activePhotoIndex := Some i;
     modeEffectPending := false |}.

(** The closed-finger condition of a (tip, PIP) pair: the tip lies lower
    in the image than the joint. *)
Definition tipBelowPip (landmarks : list Landmark.t) (tip pip : nat) : Prop :=
  exists t p, nth_error landmarks tip = Some t
           /\ nth_error landmarks pip = Some p
           /\ (Landmark.y p <? Landmark.y t)%float = true.

(** A session: one upload, an open hand and a pinch on the photo. *)
Definition viewingStore : Store :=
  stepModeEffect
    (stepFrame true half (signal PINCH true)
       (stepModeEffect
          (stepApp (signal OPEN_HAND true)
             (handlePhotoUpload ["a"%string]
                (stepModeEffect initialStore))))).

(** The store reached from [scattered ["a"]] when, under a pinch, the
    frame callback runs before and after the effects. *)
Definition frameFirst : Store :=
  stepFrame true (1 # 4) (signal PINCH true)
    (stepApp (signal PINCH true)
       (stepModeEffect
          (stepFrame true half (signal PINCH true)
             (scattered ["a"%string])))).

(** The callbacks that run while one hand signal [h] is on display, in
    whatever order the scheduler picks them. *)
Inductive run (h : HandData) : Store -> Store -> Prop :=
| run_done : forall s, run h s s
| run_app : forall s s', run h (stepApp h s) s' -> run h s s'
| run_frame : forall g random s s',
    unitDraw random -> run h (stepFrame g random h s) s' -> run h s s'
| run_effect : forall s s', run h (stepModeEffect s) s' -> run h s s'.

(** The stores such a run can pass through when it starts in [s0]. *)
Definition underway (h : HandData) (s0 s : Store) : Prop :=
  s = s0
  \/ s = stepApp h s0
  \/ exists random, unitDraw random
       /\ (s = stepFrame true random h s0 \/ s = onSignal random h s0).

(** The rows of the transition table a signal can match in a store. *)
Definition trigger (h : HandData) (s : Store) : Prop :=
  (gesture h = FIST /\ mode s <> TREE)
  \/ (gesture h = OPEN_HAND /\ mode s = TREE)
  \/ (gesture h = OPEN_HAND /\ mode s = PHOTO_VIEW)
  \/ (gesture h = PINCH /\ mode s = SCATTER
      /\ activePhotoIndex s = None /\ photos s <> []).

(** What every store the callbacks can produce satisfies. *)
Definition consistent (s : Store) : Prop :=
  (mode s = PHOTO_VIEW -> activePhotoIndex s <> None)
  /\ (modeEffectPending s = false -> mode s <> PHOTO_VIEW ->
      activePhotoIndex s = None)
  /\ (forall i, activePhotoIndex s = Some i -> i < List.length (photos s)).

(** No callback changes the store under hand data [h]. *)
Definition quiescent (h : HandData) (s : Store) : Prop :=
  stepApp h s = s
  /\ stepModeEffect s = s
  /\ forall g random, stepFrame g random h s = s.


(** ** More of the tracker and of [MagicParticles] *)

(** The landmarks [onResults] reads. *)
Definition readIndices : list nat := [0; 4; 6; 8; 9; 10; 12; 14; 16; 18; 20].

(** Two hands carry the same [x] and [y] at every landmark that is read. *)
Definition sameReadings (l1 l2 : list Landmark.t) : Prop :=
  forall i, In i readIndices ->
    exists a b, nth_error l1 i = Some a /\ nth_error l2 i = Some b
             /\ Landmark.x a = Landmark.x b /\ Landmark.y a = Landmark.y b.

(** The frame carries no hand at all. *)
Definition noHand (r : Results) : bool :=
  match multiHandLandmarks r with
  | Some (_ :: _) => false
  | _ => true
  end.

(** The first hand of the frame has fewer than 21 landmarks. *)
Definition shortFrame (r : Results) : bool :=
  match multiHandLandmarks r with
  | Some (landmarks :: _) => (List.length landmarks <? 21)%nat
  | _ => false
  end.

(** The finger-open test of a (tip, PIP) pair meets a NaN. *)
Definition nanFinger (landmarks : list Landmark.t) (tip pip : nat) : Prop :=
  exists t p, nth_error landmarks tip = Some t
           /\ nth_error landmarks pip = Some p
           /\ is_nan (Landmark.y t) || is_nan (Landmark.y p) = true.

(** The open palm with the heights of its four fingertips unknown. *)
Definition blurredPalm : list Landmark.t :=
  hand (pt 0.5 0.75) (pt 0.25 0.25) (pt 0.5 0.375) (pt 0.5 nan)
       (pt 0.5 0.5) nan 0.375.

Definition COLORS : list string :=
  ["#2F4F4F"; "#FFD700"; "#8B0000"; "#ffffff"]%string.

(** [COLORS[Math.floor(Math.random() * COLORS.length)]]; [None] stands for
    [undefined]. *)
Definition pickColor (random : Q) : option string :=
  nth_error COLORS (randomIndex random (List.length COLORS)).

Definition COUNT : nat := 400.
Definition TREE_HEIGHT : float := 15%float.
Definition TREE_RADIUS_BASE : float := 6%float.

(** The loop counter [i] as a JavaScript number. *)
Definition number (i : nat) : float :=
  PrimFloat.of_uint63 (Uint63.of_Z (Z.of_nat i)).

(** Tree Position (Cone Spiral) of decoration [i]: its height and the
    radius of the spiral there. *)
Definition treeT (i : nat) : float := (number i / number COUNT)%float.

Definition treeY (i : nat) : float :=
  (- TREE_HEIGHT / 2 + treeT i * TREE_HEIGHT)%float.

Definition treeRadius (i : nat) : float :=
  (TREE_RADIUS_BASE * (1 - treeT i))%float.

(** [isTargetPhoto] of the render of [MagicParticles], for a particle [p]
    whose [type] is ['photo'] or not:
    [p.type === 'photo' && activePhotoIndex !== null &&
     photoParticles[activePhotoIndex].id === p.id]. *)
Definition isTargetPhoto (isPhoto : bool) (p : ParticleData)
    (activePhotoIndex : option nat) (photoParticles : list ParticleData)
  : completion bool :=
  if negb isPhoto then Normal false
  else match activePhotoIndex with
       | None => Normal false
       | Some i =>
           match nth_error photoParticles i with
           | Some q => Normal (id q =? id p)%nat
           | None => Throw TypeError
           end
       end.

(** The photo particles the render marks as target in store [s]. *)
Definition targets (s : Store) : list ParticleData :=
  filter (fun p =>
            match isTargetPhoto true p (activePhotoIndex s)
                    (photoParticles (photos s)) with
            | Normal b => b
            | Throw _ => false
            end)
         (photoParticles (photos s)).

(** What happens in a session: a hand signal is processed (with the draw
    its frame makes), or photos are uploaded. *)
Inductive Event : Type :=
| Signal (random : Q) (h : HandData)
| Upload (newPhotos : list string).

Definition handle (s : Store) (e : Event) : Store :=
  match e with
  | Signal random h => onSignal random h s
  | Upload newPhotos => handlePhotoUpload newPhotos s
  end.

Definition unitDraws (events : list Event) : Prop :=
  Forall (fun e => match e with
                   | Signal random _ => unitDraw random
                   | Upload _ => True
                   end) events.

(** The store after the mount effects and the given events. *)
Definition session (events : list Event) : Store :=
  fold_left handle events (stepModeEffect initialStore).

(** *** The [mode] effect with the mode of its render

    A [useEffect] callback is created by a render and sees the [mode] of
    that render, whenever it runs.  In this finer store every effect that
    is due is kept with that mode, oldest first; the callbacks are the
    same as above. *)

Module Scheduled.

Record Store : Type := mkStore {
  mode : AppMode;
  photos : list string;
  activePhotoIndex : option nat;
  effects : list AppMode
}.

(** After the first render the effect of that render is due. *)
Definition initialStore : Store :=
  {| mode := TREE; photos := []; activePhotoIndex := None;
     effects := [TREE] |}.

(** A [setMode] that changes the mode causes a render, which schedules
    the effect with the new mode. *)
Definition dispatch (s : Store) (u : Update) : Store :=
  match u with
  | setMode m =>
      {| mode := m; photos := photos s;
         activePhotoIndex := activePhotoIndex s;
         effects := if AppMode_eqb m (mode s) then effects s
                    else effects s ++ [m] |}
  | setActivePhotoIndex i =>
      {| mode := mode s; photos := photos s;
         activePhotoIndex := i;
         effects := effects s |}
  end.

Definition commit (us : list Update) (s : Store) : Store :=
  fold_left dispatch us s.

Definition handlePhotoUpload (newPhotos : list string) (s : Store) : Store :=
  {| mode := mode s; photos := photos s ++ newPhotos;
     activePhotoIndex := activePhotoIndex s;
     effects := effects s |}.

Definition stepApp (h : HandData) (s : Store) : Store :=
  commit (App_useEffect h (mode s)) s.

Definition stepFrame (groupRef_current : bool) (random : Q) (h : HandData)
    (s : Store) : Store :=
  commit (MagicParticles_useFrame groupRef_current random h (mode s)
            (activePhotoIndex s) (photoParticles (photos s))) s.

(** The oldest effect that is due runs, on the mode of its own render. *)
Definition stepModeEffect (s : Store) : Store :=
  match effects s with
  | [] => s
  | renderedMode :: rest =>
      commit (MagicParticles_useEffect renderedMode)
        {| mode := mode s; photos := photos s;
           activePhotoIndex := activePhotoIndex s;
           effects := rest |}
  end.

(** All effects that are due run. *)
Definition flushEffects (s : Store) : Store :=
  Nat.iter (List.length (effects s)) stepModeEffect s.

Inductive step : Store -> Store -> Prop :=
| step_app : forall h s, step s (stepApp h s)
| step_frame : forall g random h s,
    unitDraw random -> step s (stepFrame g random h s)
| step_effect : forall s, step s (stepModeEffect s)
| step_upload : forall newPhotos s, step s (handlePhotoUpload newPhotos s).

Inductive reachable : Store -> Prop :=
| reach_init : reachable initialStore
| reach_step : forall s s', reachable s -> step s s' -> reachable s'.

(** One hand signal at a time, as [onSignal] above: the effect of [App],
    the effects that are due, the frame callback, the effects that are
    due. *)
Definition onSignal (random : Q) (h : HandData) (s : Store) : Store :=
  flushEffects (stepFrame true random h (flushEffects (stepApp h s))).

(** What every reachable store satisfies. *)
Definition consistent (s : Store) : Prop :=
  (forall i, activePhotoIndex s = Some i -> i < List.length (photos s))
  /\ (activePhotoIndex s <> None -> mode s <> PHOTO_VIEW ->
      exists older, effects s = older ++ [mode s]).

(** One upload and an open hand, with the effect of the [SCATTER] render
    still due ... *)
Definition scatteredStore : Store :=
  stepApp (signal OPEN_HAND true)
    (handlePhotoUpload ["a"%string] (stepModeEffect initialStore)).

(** ... then, once that effect has run, a pinch on the photo and its
    effect ... *)
Definition viewingStore : Store :=
  stepModeEffect
    (stepFrame true half (signal PINCH true)
       (stepModeEffect scatteredStore)).

(** ... and the open hand that releases the photo, before the effect of
    the new render has run. *)
Definition releasedStore : Store :=
  stepApp (signal OPEN_HAND true) viewingStore.

End Scheduled.

(** The store above that a finer store shows: an effect is pending when
    some effect is due. *)
Definition coarse (s : Scheduled.Store) : Store :=
  {| mode := Scheduled.mode s; photos := Scheduled.photos s;
     activePhotoIndex := Scheduled.activePhotoIndex s;
     modeEffectPending :=
       match Scheduled.effects s with [] => false | _ :: _ => true end |}.

(** * Properties of the classifier *)

Section FloatOrder.

Local Open Scope float_scope.

Lemma SFcompare_Lt_swap (a b : spec_float) :
  SFcompare a b = Some Lt -> SFcompare b a = Some Gt.
Proof.
  destruct a as [sa|sa| |sa ma ea], b as [sb|sb| |sb mb eb];
    simpl; try discriminate;
    try (destruct sa; try destruct sb; simpl; congruence).
  change (PosDef.Pos.compare_cont Eq ma mb) with (Pos.compare ma mb).
  change (PosDef.Pos.compare_cont Eq mb ma) with (Pos.compare mb ma).
  rewrite (Z.compare_antisym ea eb), (Pos.compare_antisym ma mb).
  destruct sa, sb; simpl; try congruence;
    destruct (ea ?= eb)%Z; simpl; try congruence;
    destruct (ma ?= mb)%positive; simpl; congruence.
Qed.

(** [<] on binary64 is asymmetric (and false on NaN). *)
Lemma ltb_asym (a b : float) : (a <? b) = true -> (b <? a) = false.
Proof.
  rewrite !ltb_spec. unfold SFltb. intros H.
  destruct (SFcompare (Prim2SF a) (Prim2SF b)) as [[]|] eqn:E;
    try discriminate.
  rewrite (SFcompare_Lt_swap _ _ E). reflexivity.
Qed.

End FloatOrder.

(** A list with at least 21 elements, spelt out. *)
Lemma at_least_21 (A : Type) (l : list A) :
  21 <= List.length l ->
  exists a0 a1 a2 a3 a4 a5 a6 a7 a8 a9 a10 a11 a12 a13 a14 a15 a16 a17 a18
         a19 a20 rest,
    l = a0 :: a1 :: a2 :: a3 :: a4 :: a5 :: a6 :: a7 :: a8 :: a9 :: a10
        :: a11 :: a12 :: a13 :: a14 :: a15 :: a16 :: a17 :: a18 :: a19
        :: a20 :: rest.
Proof.
  intros H.
  do 21 (destruct l as [|? l]; [simpl in H; lia|]).
  repeat eexists.
Qed.

Ltac spell_out H :=
  destruct (at_least_21 _ _ H)
    as (a0 & a1 & a2 & a3 & a4 & a5 & a6 & a7 & a8 & a9 & a10 & a11 & a12
        & a13 & a14 & a15 & a16 & a17 & a18 & a19 & a20 & rest & ?El).

(** A frame with fewer than 21 landmarks never reaches [setHandData]. *)
Lemma onResults_short (hypot : float -> float -> float)
    (landmarks : list Landmark.t) (others : list (list Landmark.t))
    (prev : HandData) :
  List.length landmarks < 21 ->
  onResults hypot {| multiHandLandmarks := Some (landmarks :: others) |} prev
  = Throw TypeError.
Proof.
  intros H.
  do 21 (destruct landmarks as [|? landmarks]; [reflexivity|]).
  simpl in H. lia.
Qed.

(** A frame that carries a hand and completes publishes [isPresent]. *)
Lemma onResults_present (hypot : float -> float -> float)
    (landmarks : list Landmark.t) (others : list (list Landmark.t))
    (prev h : HandData) :
  onResults hypot {| multiHandLandmarks := Some (landmarks :: others) |} prev
  = Normal h ->
  isPresent h = true.
Proof.
  unfold onResults. simpl.
  destruct (centerX landmarks); simpl; [|discriminate].
  destruct (centerY landmarks); simpl; [|discriminate].
  destruct (openFingersCount landmarks); simpl; [|discriminate].
  destruct (handScale hypot landmarks); simpl; [|discriminate].
  destruct (pinchDist hypot landmarks); simpl; [|discriminate].
  intros E. injection E as <-. reflexivity.
Qed.

(** Whatever the tracker publishes, an absent hand carries no gesture. *)
Lemma processFrame_absent_NONE (hypot : float -> float -> float)
    (results : Results) (prev : HandData) :
  (isPresent prev = false -> gesture prev = NONE) ->
  isPresent (processFrame hypot results prev) = false ->
  gesture (processFrame hypot results prev) = NONE.
Proof.
  intros IH. unfold processFrame.
  destruct (onResults hypot results prev) as [h|e] eqn:E; [|exact IH].
  destruct results as [[[|landmarks others]|]]; simpl in E;
    try (injection E as <-; reflexivity).
  intros Hp. rewrite (onResults_present _ _ _ _ _ E) in Hp. discriminate.
Qed.

Lemma track_absent_NONE (hypot : float -> float -> float)
    (frames : list Results) :
  isPresent (track hypot frames) = false ->
  gesture (track hypot frames) = NONE.
Proof.
  unfold track.
  assert (G : forall h0, (isPresent h0 = false -> gesture h0 = NONE) ->
    isPresent (fold_left (fun h r => processFrame hypot r h) frames h0) = false ->
    gesture (fold_left (fun h r => processFrame hypot r h) frames h0) = NONE).
  { induction frames as [|r frames IH]; intros h0 H0; simpl; [exact H0|].
    apply IH. apply processFrame_absent_NONE. exact H0. }
  apply G. reflexivity.
Qed.

(** [onResults] on a hand whose five readings complete. *)
Lemma onResults_unfold (hypot : float -> float -> float)
    (landmarks : list Landmark.t) (others : list (list Landmark.t))
    (prev : HandData) (cx cy : float) (n : nat) (scale dist : float) :
  centerX landmarks = Normal cx ->
  centerY landmarks = Normal cy ->
  openFingersCount landmarks = Normal n ->
  handScale hypot landmarks = Normal scale ->
  pinchDist hypot landmarks = Normal dist ->
  onResults hypot {| multiHandLandmarks := Some (landmarks :: others) |} prev
  = Normal {| gesture :=
                if (n =? 0)%nat then FIST
                else if (dist <? 0.05)%float || (dist <? scale * 0.5)%float
                     then PINCH
                else if (3 <=? n)%nat then OPEN_HAND
                else NONE;
              x := (1 - cx)%float;
              y := cy;
              isPresent := true |}.
Proof.
  intros Ex Ey En Es Ed. unfold onResults. cbn [multiHandLandmarks].
  rewrite Ex, Ey, En, Es, Ed. reflexivity.
Qed.

(** With 21 landmarks every reading completes, and the centroid is the
    per-axis mean of landmarks 0 and 9. *)
Lemma reads_21 (hypot : float -> float -> float)
    (landmarks : list Landmark.t) :
  21 <= List.length landmarks ->
  exists (wrist knuckle : Landmark.t) (n : nat) (scale dist : float),
    nth_error landmarks 0 = Some wrist
    /\ nth_error landmarks 9 = Some knuckle
    /\ centerX landmarks
       = Normal ((Landmark.x wrist + Landmark.x knuckle) / 2)%float
    /\ centerY landmarks
       = Normal ((Landmark.y wrist + Landmark.y knuckle) / 2)%float
    /\ openFingersCount landmarks = Normal n
    /\ handScale hypot landmarks = Normal scale
    /\ pinchDist hypot landmarks = Normal dist.
Proof.
  intros H. spell_out H. rewrite El.
  exists a0, a9. do 3 eexists. repeat split; reflexivity.
Qed.

(** The finger count is only available on 21 landmarks or more. *)
Lemma openFingersCount_21 (landmarks : list Landmark.t) (n : nat) :
  openFingersCount landmarks = Normal n -> 21 <= List.length landmarks.
Proof.
  intros E.
  do 21 (destruct landmarks as [|? landmarks]; [discriminate E|]).
  simpl. lia.
Qed.

Section Classifier.

Variable hypot : float -> float -> float.

Local Open Scope float_scope.

(** C1 — gesture priority.  On every hand of (at least) 21 landmarks
    [onResults] completes and publishes a present signal.  With
    [openCount] the number of fingers among index, middle, ring and pinky
    whose tip (landmarks 8, 12, 16, 20) has a smaller [y] than its PIP
    joint (landmarks 6, 10, 14, 18), [handScale] the distance from the
    wrist (0) to the middle-finger base (9) and [pinchDistance] the
    distance from the index tip (8) to the thumb tip (4), the gesture
    follows the strict priority order: [openCount = 0] gives [FIST];
    otherwise [pinchDistance < 0.05] or [pinchDistance < handScale * 0.5]
    gives [PINCH]; otherwise [openCount >= 3] gives [OPEN_HAND];
    otherwise [NONE].  In particular a hand whose four non-thumb
    fingertips all lie below their PIP joints (greater [y]) is a [FIST]
    whatever the thumb-index distance is. *)
Theorem C1_gesture_priority (landmarks : list Landmark.t)
    (others : list (list Landmark.t)) (prev : HandData) :
  21 <= List.length landmarks ->
  exists (wrist thumbTip indexPip indexTip knuckle middlePip middleTip
          ringPip ringTip pinkyPip pinkyTip : Landmark.t)
         (openCount : nat) (scale dist : float) (h : HandData),
    (nth_error landmarks 0 = Some wrist
     /\ nth_error landmarks 4 = Some thumbTip
     /\ nth_error landmarks 6 = Some indexPip
     /\ nth_error landmarks 8 = Some indexTip
     /\ nth_error landmarks 9 = Some knuckle
     /\ nth_error landmarks 10 = Some middlePip
     /\ nth_error landmarks 12 = Some middleTip
     /\ nth_error landmarks 14 = Some ringPip
     /\ nth_error landmarks 16 = Some ringTip
     /\ nth_error landmarks 18 = Some pinkyPip
     /\ nth_error landmarks 20 = Some pinkyTip)
    /\ openCount
       = (Nat.b2n (Landmark.y indexTip <? Landmark.y indexPip)%float
          + Nat.b2n (Landmark.y middleTip <? Landmark.y middlePip)%float
          + Nat.b2n (Landmark.y ringTip <? Landmark.y ringPip)%float
          + Nat.b2n (Landmark.y pinkyTip <? Landmark.y pinkyPip)%float)%nat
    /\ scale = hypot (Landmark.x wrist - Landmark.x knuckle)
                     (Landmark.y wrist - Landmark.y knuckle)
    /\ dist = hypot (Landmark.x indexTip - Landmark.x thumbTip)
                    (Landmark.y indexTip - Landmark.y thumbTip)
    /\ openFingersCount landmarks = Normal openCount
    /\ handScale hypot landmarks = Normal scale
    /\ pinchDist hypot landmarks = Normal dist
    /\ onResults hypot {| multiHandLandmarks := Some (landmarks :: others) |}
                 prev = Normal h
    /\ isPresent h = true
    /\ (openCount = 0%nat -> gesture h = FIST)
    /\ (openCount <> 0%nat ->
        (dist <? 0.05) = true \/ (dist <? scale * 0.5) = true ->
        gesture h = PINCH)
    /\ (openCount <> 0%nat ->
        (dist <? 0.05) = false -> (dist <? scale * 0.5) = false ->
        3 <= openCount -> gesture h = OPEN_HAND)
    /\ (openCount <> 0%nat ->
        (dist <? 0.05) = false -> (dist <? scale * 0.5) = false ->
        openCount < 3 -> gesture h = NONE)
    /\ (tipBelowPip landmarks 8 6 -> tipBelowPip landmarks 12 10 ->
        tipBelowPip landmarks 16 14 -> tipBelowPip landmarks 20 18 ->
        openCount = 0%nat /\ gesture h = FIST).
Proof.
  intros H. spell_out H.
  set (n := (Nat.b2n (Landmark.y a8 <? Landmark.y a6)%float
             + Nat.b2n (Landmark.y a12 <? Landmark.y a10)%float
             + Nat.b2n (Landmark.y a16 <? Landmark.y a14)%float
             + Nat.b2n (Landmark.y a20 <? Landmark.y a18)%float)%nat).
  set (scale := hypot (Landmark.x a0 - Landmark.x a9)
                      (Landmark.y a0 - Landmark.y a9)).
  set (dist := hypot (Landmark.x a8 - Landmark.x a4)
                     (Landmark.y a8 - Landmark.y a4)).
  assert (En : openFingersCount landmarks = Normal n).
  { rewrite El. subst n.
    cbn [openFingersCount isFingerOpen rd nth_error bind].
    destruct (Landmark.y a8 <? Landmark.y a6),
      (Landmark.y a12 <? Landmark.y a10),
      (Landmark.y a16 <? Landmark.y a14),
      (Landmark.y a20 <? Landmark.y a18); reflexivity. }
  assert (Es : handScale hypot landmarks = Normal scale)
    by (rewrite El; reflexivity).
  assert (Ed : pinchDist hypot landmarks = Normal dist)
    by (rewrite El; reflexivity).
  assert (Ex : centerX landmarks
               = Normal ((Landmark.x a0 + Landmark.x a9) / 2))
    by (rewrite El; reflexivity).
  assert (Ey : centerY landmarks
               = Normal ((Landmark.y a0 + Landmark.y a9) / 2))
    by (rewrite El; reflexivity).
  assert (Hfist : tipBelowPip landmarks 8 6 ->
                  tipBelowPip landmarks 12 10 ->
                  tipBelowPip landmarks 16 14 ->
                  tipBelowPip landmarks 20 18 -> n = 0%nat).
  { rewrite El.
    intros (t1 & p1 & T1 & P1 & L1) (t2 & p2 & T2 & P2 & L2)
           (t3 & p3 & T3 & P3 & L3) (t4 & p4 & T4 & P4 & L4).
    simpl in T1, P1, T2, P2, T3, P3, T4, P4.
    injection T1 as <-; injection P1 as <-; injection T2 as <-;
      injection P2 as <-; injection T3 as <-; injection P3 as <-;
      injection T4 as <-; injection P4 as <-.
    subst n.
    rewrite (ltb_asym _ _ L1), (ltb_asym _ _ L2), (ltb_asym _ _ L3),
      (ltb_asym _ _ L4). reflexivity. }
  exists a0, a4, a6, a8, a9, a10, a12, a14, a16, a18, a20, n, scale, dist.
  eexists.
  split; [rewrite El; repeat split; reflexivity|].
  split; [reflexivity|]. split; [reflexivity|]. split; [reflexivity|].
  clearbody n scale dist.
  split; [exact En|]. split; [exact Es|]. split; [exact Ed|].
  split.
  { unfold onResults. cbn [multiHandLandmarks].
    rewrite Ex, Ey, En, Es, Ed. cbn [bind]. reflexivity. }
  cbn [gesture isPresent].
  split; [reflexivity|].
  split; [intros ->; reflexivity|].
  split.
  { intros N D. destruct (Nat.eqb_spec n 0) as [|_]; [contradiction|].
    destruct D as [-> | ->]; [reflexivity|].
    rewrite orb_true_r. reflexivity. }
  split.
  { intros N D1 D2 G.
    destruct (Nat.eqb_spec n 0) as [|_]; [contradiction|].
    rewrite D1, D2. cbn [orb].
    destruct (Nat.leb_spec 3 n); [reflexivity | lia]. }
  split.
  { intros N D1 D2 G.
    destruct (Nat.eqb_spec n 0) as [|_]; [contradiction|].
    rewrite D1, D2. cbn [orb].
    destruct (Nat.leb_spec 3 n); [lia | reflexivity]. }
  intros F1 F2 F3 F4.
  rewrite (Hfist F1 F2 F3 F4). split; reflexivity.
Qed.

End Classifier.

(** C1, on the open palm (four fingers up, thumb a quarter of the image
    away: [OPEN_HAND]) and on the closed fist whose thumb tip sits on the
    index tip ([FIST]). *)
Lemma C1_gesture_priority_witness :
  (exists h : HandData,
     onResults Math_hypot (frameOf openPalm) initialHandData = Normal h
     /\ gesture h = OPEN_HAND)
  /\ (exists h : HandData,
        onResults Math_hypot (frameOf closedFist) initialHandData = Normal h
        /\ gesture h = FIST).
Proof.
  split.
  - destruct (C1_gesture_priority Math_hypot openPalm [] initialHandData)
      as (wrist & thumbTip & indexPip & indexTip & knuckle & middlePip
          & middleTip & ringPip & ringTip & pinkyPip & pinkyTip
          & n & scale & dist & h
          & (E0 & E4 & E6 & E8 & E9 & E10 & E12 & E14 & E16 & E18 & E20)
          & Hn & Hs & Hd & _ & _ & _ & E & _ & _ & _ & O & _).
    + simpl. lia.
    + exists h. split; [exact E|].
      injection E0 as <-; injection E4 as <-; injection E6 as <-;
        injection E8 as <-; injection E9 as <-; injection E10 as <-;
        injection E12 as <-; injection E14 as <-; injection E16 as <-;
        injection E18 as <-; injection E20 as <-.
      subst n scale dist. apply O; [discriminate | reflexivity
                                    | reflexivity | simpl; lia].
  - destruct (C1_gesture_priority Math_hypot closedFist [] initialHandData)
      as (wrist & thumbTip & indexPip & indexTip & knuckle & middlePip
          & middleTip & ringPip & ringTip & pinkyPip & pinkyTip
          & n & scale & dist & h & _ & _ & _ & _ & _ & _ & _ & E & _ & _
          & _ & _ & _ & F).
    + simpl. lia.
    + exists h. split; [exact E|].
      apply F; do 2 eexists; (split; [reflexivity|split; reflexivity]).
Defined.

(** C6 — cursor position.  For every present hand the published cursor is
    [x = 1 - centerX] and [y = centerY], where the centroid is the
    per-axis midpoint of the wrist (landmark 0) and the middle-finger base
    (landmark 9): only the horizontal axis is mirrored. *)
Theorem C6_cursor_position (hypot : float -> float -> float)
    (landmarks : list Landmark.t) (others : list (list Landmark.t))
    (prev : HandData) :
  21 <= List.length landmarks ->
  exists (wrist knuckle : Landmark.t) (h : HandData),
    nth_error landmarks 0 = Some wrist
    /\ nth_error landmarks 9 = Some knuckle
    /\ centerX landmarks
       = Normal ((Landmark.x wrist + Landmark.x knuckle) / 2)%float
    /\ centerY landmarks
       = Normal ((Landmark.y wrist + Landmark.y knuckle) / 2)%float
    /\ onResults hypot {| multiHandLandmarks := Some (landmarks :: others) |}
                 prev = Normal h
    /\ isPresent h = true
    /\ x h = (1 - (Landmark.x wrist + Landmark.x knuckle) / 2)%float
    /\ y h = ((Landmark.y wrist + Landmark.y knuckle) / 2)%float.
Proof.
  intros H.
  destruct (reads_21 hypot landmarks H)
    as (wrist & knuckle & n & scale & dist & E0 & E9 & Ex & Ey & En & Es & Ed).
  exists wrist, knuckle. eexists.
  split; [exact E0|]. split; [exact E9|].
  split; [exact Ex|]. split; [exact Ey|].
  split; [eapply onResults_unfold; eassumption|].
  repeat split.
Qed.

(** C6, on the open palm: wrist at (0.5, 0.75), knuckle at (0.5, 0.5). *)
Lemma C6_cursor_position_witness :
  exists h : HandData,
    onResults Math_hypot (frameOf openPalm) initialHandData = Normal h
    /\ x h = 0.5%float /\ y h = 0.625%float.
Proof.
  destruct (C6_cursor_position Math_hypot openPalm [] initialHandData)
    as (wrist & knuckle & h & E0 & E9 & _ & _ & E & _ & Hx & Hy).
  - simpl. lia.
  - injection E0 as <-. injection E9 as <-.
    exists h. split; [exact E|]. split; [exact Hx | exact Hy].
Defined.

(** C7, as amended — malformed frames.  Nothing validates the landmark
    count.  A hand with fewer than 21 landmarks makes [onResults] throw a
    [TypeError] before [setHandData]; the frame loop swallows it and the
    published signal keeps its previous value, presence included.  A hand
    with more than 21 landmarks is classified from its first 21 like any
    other and published as present. *)
Theorem C7_malformed_frames (hypot : float -> float -> float)
    (landmarks : list Landmark.t) (others : list (list Landmark.t))
    (prev : HandData) :
  List.length landmarks <> 21 ->
  (List.length landmarks < 21 ->
     onResults hypot {| multiHandLandmarks := Some (landmarks :: others) |}
               prev = Throw TypeError
     /\ processFrame hypot
          {| multiHandLandmarks := Some (landmarks :: others) |} prev = prev)
  /\ (21 < List.length landmarks ->
      exists h : HandData,
        onResults hypot {| multiHandLandmarks := Some (landmarks :: others) |}
                  prev = Normal h
        /\ processFrame hypot
             {| multiHandLandmarks := Some (landmarks :: others) |} prev = h
        /\ isPresent h = true
        /\ onResults hypot
             {| multiHandLandmarks := Some (firstn 21 landmarks :: others) |}
             prev = Normal h).
Proof.
  intros _. split.
  - intros H. unfold processFrame.
    rewrite (onResults_short hypot landmarks others prev H).
    split; reflexivity.
  - intros H.
    assert (H' : 21 <= List.length landmarks) by lia.
    spell_out H'. rewrite El. eexists.
    split; [reflexivity|]. split; [reflexivity|]. split; reflexivity.
Qed.

(** C7 as stated fails: five landmarks arriving while a pinch is
    published leave the signal present, and twenty-two landmarks are
    classified and published as present. *)
Lemma C7_counterexample :
  List.length shortHand <> 21
  /\ onResults Math_hypot (frameOf shortHand) (signal PINCH true)
     = Throw TypeError
  /\ isPresent (processFrame Math_hypot (frameOf shortHand)
                             (signal PINCH true)) = true
  /\ List.length longHand <> 21
  /\ isPresent (processFrame Math_hypot (frameOf longHand) initialHandData)
     = true.
Proof.
  split; [simpl; lia|]. split; [reflexivity|]. split; [reflexivity|].
  split; [simpl; lia|]. reflexivity.
Qed.

(** C7 as amended, on the five-landmark frame. *)
Lemma C7_malformed_frames_witness :
  processFrame Math_hypot (frameOf shortHand) (signal PINCH true)
  = signal PINCH true.
Proof.
  destruct (C7_malformed_frames Math_hypot shortHand []
              (signal PINCH true)) as [S _].
  - simpl. lia.
  - apply S. simpl. lia.
Defined.

(** C8, as amended — open hand.  With three or more open fingers and a
    thumb-index distance that is neither below the absolute threshold
    0.05 nor below half the hand scale, the gesture is [OPEN_HAND]. *)
Theorem C8_open_hand (hypot : float -> float -> float)
    (landmarks : list Landmark.t) (others : list (list Landmark.t))
    (prev : HandData) (n : nat) (scale dist : float) :
  openFingersCount landmarks = Normal n ->
  handScale hypot landmarks = Normal scale ->
  pinchDist hypot landmarks = Normal dist ->
  3 <= n ->
  (dist <? 0.05)%float = false ->
  (dist <? scale * 0.5)%float = false ->
  exists h : HandData,
    onResults hypot {| multiHandLandmarks := Some (landmarks :: others) |}
              prev = Normal h
    /\ isPresent h = true
    /\ gesture h = OPEN_HAND.
Proof.
  intros En Es Ed G D1 D2.
  destruct (reads_21 hypot landmarks (openFingersCount_21 landmarks n En))
    as (wrist & knuckle & n' & scale' & dist' & _ & _ & Ex & Ey & _).
  eexists. split; [eapply onResults_unfold; eassumption|].
  split; [reflexivity|]. cbn [gesture]. rewrite D1, D2. cbn [orb].
  destruct (Nat.eqb_spec n 0); [lia|].
  destruct (Nat.leb_spec 3 n); [reflexivity|lia].
Qed.

(** C8 as stated fails on a distant hand: four open fingers, a
    thumb-index distance of 1/32, sixteen times half the hand scale of
    1/256, and yet the absolute threshold makes it a [PINCH]. *)
Lemma C8_counterexample :
  openFingersCount distantPalm = Normal 4
  /\ handScale Math_hypot distantPalm = Normal 0.00390625%float
  /\ pinchDist Math_hypot distantPalm = Normal 0.03125%float
  /\ (16 * (0.00390625 * 0.5))%float = 0.03125%float
  /\ onResults Math_hypot (frameOf distantPalm) initialHandData
     = Normal {| gesture := PINCH; x := 0.5%float;
                 y := 0.498046875%float; isPresent := true |}
  /\ PINCH <> OPEN_HAND.
Proof.
  repeat split; try reflexivity. discriminate.
Qed.

(** C8 as amended, on the open palm. *)
Lemma C8_open_hand_witness :
  exists h : HandData,
    onResults Math_hypot (frameOf openPalm) initialHandData = Normal h
    /\ isPresent h = true
    /\ gesture h = OPEN_HAND.
Proof.
  apply (C8_open_hand Math_hypot openPalm [] initialHandData 4
           0.25%float 0.25%float); reflexivity || (simpl; lia).
Defined.

(** C10 — initial signal and absent frames.  Before any frame the
    published signal is [{gesture: NONE, x: 0.5, y: 0.5, isPresent:
    false}]; a frame without a hand (no landmark field, or an empty hand
    list) sets the gesture to [NONE] and the presence flag to [false] and
    keeps [x] and [y] as they were. *)
Theorem C10_initial_and_absent (hypot : float -> float -> float) :
  track hypot []
  = {| gesture := NONE; x := 0.5%float; y := 0.5%float; isPresent := false |}
  /\ forall prev : HandData,
       processFrame hypot {| multiHandLandmarks := None |} prev
       = {| gesture := NONE; x := x prev; y := y prev; isPresent := false |}
       /\ processFrame hypot {| multiHandLandmarks := Some [] |} prev
          = {| gesture := NONE; x := x prev; y := y prev;
               isPresent := false |}.
Proof.
  split; [reflexivity|]. intros prev. split; reflexivity.
Qed.

(** * Properties of the controller *)

Lemma AppMode_eqb_eq (a b : AppMode) : AppMode_eqb a b = true <-> a = b.
Proof. destruct a, b; simpl; split; congruence. Qed.

Lemma GestureType_eqb_eq (a b : GestureType) :
  GestureType_eqb a b = true <-> a = b.
Proof. destruct a, b; simpl; split; congruence. Qed.

Lemma photoParticles_length (urls : list string) :
  List.length (photoParticles urls) = List.length urls.
Proof.
  destruct urls as [|u urls]; [reflexivity|].
  unfold photoParticles.
  rewrite length_map, length_combine, length_seq. apply Nat.min_id.
Qed.

(** Each photo particle carries its own position as [id]. *)
Lemma photoParticles_nth (urls : list string) (i : nat) (u : string) :
  nth_error urls i = Some u ->
  nth_error (photoParticles urls) i = Some {| id := i; photoUrl := u |}.
Proof.
  intros E. destruct urls as [|u0 urls]; [destruct i; discriminate|].
  unfold photoParticles.
  assert (G : forall (l : list string) (k j : nat),
             nth_error l j = Some u ->
             nth_error (map (fun p => {| id := fst p; photoUrl := snd p |})
                            (combine (seq k (List.length l)) l)) j
             = Some {| id := k + j; photoUrl := u |}).
  { induction l as [|a l IH]; intros k j Hj; [destruct j; discriminate|].
    destruct j as [|j]; simpl in *.
    - injection Hj as ->. rewrite Nat.add_0_r. reflexivity.
    - rewrite (IH (S k) j Hj). do 2 f_equal. lia. }
  apply (G (u0 :: urls) 0 i E).
Qed.

Section RandomIndex.

Local Open Scope Q_scope.

(** [Math.floor(Math.random() * n)] is a valid index of an [n]-element
    array. *)
Lemma randomIndex_lt (random : Q) (n : nat) :
  unitDraw random -> (0 < n)%nat -> (randomIndex random n < n)%nat.
Proof.
  intros [H0 H1] Hn. unfold randomIndex.
  set (q := random * inject_Z (Z.of_nat n)).
  assert (Hpos : 0 < inject_Z (Z.of_nat n)).
  { change 0 with (inject_Z 0). rewrite <- Zlt_Qlt. lia. }
  assert (Hq0 : 0 <= q).
  { unfold q. apply Qmult_le_0_compat; [exact H0|]. apply Qlt_le_weak, Hpos. }
  assert (Hq1 : q < inject_Z (Z.of_nat n)).
  { unfold q.
    setoid_replace (inject_Z (Z.of_nat n))
      with (1 * inject_Z (Z.of_nat n)) at 2 by (symmetry; apply Qmult_1_l).
    apply Qmult_lt_compat_r; assumption. }
  assert (F0 : (0 <= Qfloor q)%Z).
  { change 0%Z with (Qfloor 0). apply Qfloor_resp_le, Hq0. }
  assert (F1 : (Qfloor q < Z.of_nat n)%Z).
  { rewrite Zlt_Qlt. eapply Qle_lt_trans; [apply Qfloor_le | exact Hq1]. }
  lia.
Qed.


End RandomIndex.

(** [useFrame] as a store transformer. *)
Lemma stepFrame_spec (g : bool) (random : Q) (h : HandData) (s : Store) :
  stepFrame g random h s =
  if g && GestureType_eqb (gesture h) PINCH && AppMode_eqb (mode s) SCATTER
     && match activePhotoIndex s with None => true | Some _ => false end
     && (0 <? List.length (photos s))
  then {| mode := PHOTO_VIEW; photos := photos s;
          activePhotoIndex :=
            Some (randomIndex random (List.length (photos s)));
          modeEffectPending := true |}
  else s.
Proof.
  unfold stepFrame, MagicParticles_useFrame.
  rewrite photoParticles_length.
  destruct s as [m ps a p]; cbn [mode photos activePhotoIndex modeEffectPending].
  destruct g, (gesture h), m, a, (0 <? List.length ps); cbn;
    rewrite ?orb_true_r; reflexivity.
Qed.

(** The effect of [App] as a store transformer. *)
Lemma stepApp_spec (h : HandData) (s : Store) :
  stepApp h s =
  if isPresent h then
    match gesture h, mode s with
    | FIST, (SCATTER | PHOTO_VIEW) =>
        {| mode := TREE; photos := photos s;
           activePhotoIndex := activePhotoIndex s;
           modeEffectPending := true |}
    | OPEN_HAND, (TREE | PHOTO_VIEW) =>
        {| mode := SCATTER; photos := photos s;
           activePhotoIndex := activePhotoIndex s;
           modeEffectPending := true |}
    | _, _ => s
    end
  else s.
Proof.
  unfold stepApp, App_useEffect.
  destruct s as [m ps a p]; cbn [mode photos activePhotoIndex modeEffectPending].
  destruct (isPresent h), (gesture h), m; cbn;
    rewrite ?orb_true_r; reflexivity.
Qed.

(** The [mode] effect as a store transformer. *)
Lemma stepModeEffect_spec (s : Store) :
  stepModeEffect s =
  if modeEffectPending s then
    {| mode := mode s; photos := photos s;
       activePhotoIndex :=
         match mode s with
         | PHOTO_VIEW => activePhotoIndex s
         | _ => None
         end;
       modeEffectPending := false |}
  else s.
Proof.
  unfold stepModeEffect, MagicParticles_useEffect.
  destruct s as [m ps a p]; cbn [mode photos activePhotoIndex modeEffectPending].
  destruct p, m; reflexivity.
Qed.

(** The guard against absent hands in [App]: nothing is dispatched. *)
Lemma stepApp_absent (h : HandData) (s : Store) :
  isPresent h = false -> stepApp h s = s.
Proof. intros E. rewrite stepApp_spec, E. reflexivity. Qed.

(** The same three equations on an explicit store, for computing through
    nested callbacks from the inside out. *)
Lemma stepApp_mk (h : HandData) (m : AppMode) (ps : list string)
    (a : option nat) (p : bool) :
  stepApp h (mkStore m ps a p) =
  if isPresent h then
    match gesture h, m with
    | FIST, (SCATTER | PHOTO_VIEW) => mkStore TREE ps a true
    | OPEN_HAND, (TREE | PHOTO_VIEW) => mkStore SCATTER ps a true
    | _, _ => mkStore m ps a p
    end
  else mkStore m ps a p.
Proof. rewrite stepApp_spec. reflexivity. Qed.

Lemma stepModeEffect_mk (m : AppMode) (ps : list string) (a : option nat)
    (p : bool) :
  stepModeEffect (mkStore m ps a p) =
  if p then
    mkStore m ps (match m with PHOTO_VIEW => a | _ => None end) false
  else mkStore m ps a p.
Proof. rewrite stepModeEffect_spec. reflexivity. Qed.

Lemma stepFrame_mk (g : bool) (random : Q) (h : HandData) (m : AppMode)
    (ps : list string) (a : option nat) (p : bool) :
  stepFrame g random h (mkStore m ps a p) =
  if g && GestureType_eqb (gesture h) PINCH && AppMode_eqb m SCATTER
     && match a with None => true | Some _ => false end
     && (0 <? List.length ps)
  then mkStore PHOTO_VIEW ps (Some (randomIndex random (List.length ps))) true
  else mkStore m ps a p.
Proof. rewrite stepFrame_spec. reflexivity. Qed.

Ltac callbacks L :=
  repeat (progress
            (rewrite ?stepApp_mk, ?stepModeEffect_mk, ?stepFrame_mk, ?L;
             cbn [isPresent gesture andb GestureType_eqb AppMode_eqb
                  mode photos activePhotoIndex modeEffectPending])).

(** The pinch and the other gestures are handled by different callbacks:
    under one signal at most one of them changes the store, so their
    order is immaterial. *)
Lemma stepApp_stepFrame_commute (g : bool) (random : Q) (h : HandData)
    (s : Store) :
  stepApp h (stepFrame g random h s) = stepFrame g random h (stepApp h s).
Proof.
  destruct s as [m ps a p], h as [ge hx hy pr].
  destruct (0 <? List.length ps) eqn:L;
    destruct g, pr, ge, m, a; callbacks L; reflexivity.
Qed.

(** After [onSignal] nothing is left to run under the same hand data:
    every further callback leaves the store as it is. *)
Lemma onSignal_quiescent (random : Q) (h : HandData) (s : Store) :
  quiescent h (onSignal random h s).
Proof.
  unfold quiescent, onSignal.
  destruct s as [m ps a p], h as [ge hx hy pr].
  destruct (0 <? List.length ps) eqn:L;
    (split; [|split; [|intros [|] r']]);
    destruct pr, ge, m, a, p; callbacks L; reflexivity.
Qed.

Lemma unitDraw_half : unitDraw half.
Proof. split; [discriminate | reflexivity]. Qed.

(** *** Any schedule settles on [onSignal] *)

Ltac place L r :=
  first
    [ left; callbacks L; reflexivity
    | right; left; callbacks L; reflexivity
    | right; right; exists r; split; [assumption|];
      left; callbacks L; reflexivity
    | right; right; exists r; split; [assumption|];
      right; unfold onSignal; callbacks L; reflexivity ].

Lemma underway_app (h : HandData) (s0 s : Store) :
  modeEffectPending s0 = false ->
  underway h s0 s -> underway h s0 (stepApp h s).
Proof.
  destruct s0 as [m ps a p], h as [ge hx hy pr]. cbn. intros ->.
  pose proof unitDraw_half as Hh.
  intros [->|[->|(r & U & [->| ->])]]; unfold onSignal;
    destruct (0 <? List.length ps) eqn:L;
    destruct pr, ge, m, a; callbacks L;
    first [place L r | place L half].
Qed.

Lemma underway_effect (h : HandData) (s0 s : Store) :
  modeEffectPending s0 = false ->
  underway h s0 s -> underway h s0 (stepModeEffect s).
Proof.
  destruct s0 as [m ps a p], h as [ge hx hy pr]. cbn. intros ->.
  pose proof unitDraw_half as Hh.
  intros [->|[->|(r & U & [->| ->])]]; unfold onSignal;
    destruct (0 <? List.length ps) eqn:L;
    destruct pr, ge, m, a; callbacks L;
    first [place L r | place L half].
Qed.

Lemma underway_frame (h : HandData) (s0 s : Store) (g : bool) (r' : Q) :
  unitDraw r' -> modeEffectPending s0 = false ->
  underway h s0 s -> underway h s0 (stepFrame g r' h s).
Proof.
  destruct s0 as [m ps a p], h as [ge hx hy pr]. cbn. intros U' ->.
  pose proof unitDraw_half as Hh.
  intros [->|[->|(r & U & [->| ->])]]; unfold onSignal;
    destruct (0 <? List.length ps) eqn:L;
    destruct g, pr, ge, m, a; callbacks L;
    first [place L r | place L r' | place L half].
Qed.

Lemma underway_quiescent (h : HandData) (s0 s : Store) :
  modeEffectPending s0 = false -> underway h s0 s -> quiescent h s ->
  exists random, unitDraw random /\ s = onSignal random h s0.
Proof.
  intros S [->|[->|(r & U & [->| ->])]] (QA & QE & QF).
  - exists half. split; [apply unitDraw_half|].
    unfold onSignal. rewrite QA, QE, (QF true half), QE. reflexivity.
  - exists half. split; [apply unitDraw_half|].
    unfold onSignal. rewrite QE, (QF true half), QE. reflexivity.
  - exists r. split; [exact U|].
    unfold onSignal. specialize (QF true r).
    destruct s0 as [m ps a p], h as [ge hx hy pr]. cbn in S. subst p.
    destruct (0 <? List.length ps) eqn:L;
      destruct pr, ge, m, a; revert QA QE QF; callbacks L;
      intros; congruence.
  - exists r. split; [exact U | reflexivity].
Qed.

(** X5 — any schedule settles on [onSignal].  From a store whose [mode]
    effect has run, every schedule of the three callbacks under one hand
    signal that runs until none of them changes the store any more ends
    in [onSignal], for some draw of [Math.random()]. *)
Lemma run_settles (h : HandData) (s0 s' : Store) :
  modeEffectPending s0 = false -> run h s0 s' -> quiescent h s' ->
  exists random, unitDraw random /\ s' = onSignal random h s0.
Proof.
  intros S R Q. apply underway_quiescent; trivial.
  assert (G : forall s, underway h s0 s -> run h s s' -> underway h s0 s').
  { intros s U R'. induction R' as [s|s s' _ IH|g r s s' Ur _ IH|s s' _ IH].
    - exact U.
    - apply IH; trivial. apply underway_app; trivial.
    - apply IH; trivial. apply underway_frame; trivial.
    - apply IH; trivial. apply underway_effect; trivial. }
  apply (G s0); [left; reflexivity | exact R].
Qed.

(** And [onSignal] is one such schedule. *)
Lemma run_onSignal (random : Q) (h : HandData) (s : Store) :
  unitDraw random -> run h s (onSignal random h s).
Proof.
  intros U. unfold onSignal.
  apply run_app, run_effect, (run_frame h true random _ _ U), run_effect,
    run_done.
Qed.

(** *** The invariant *)

Lemma consistent_initial : consistent initialStore.
Proof.
  repeat split; simpl; intros; try discriminate; congruence.
Qed.

Lemma consistent_step (s s' : Store) :
  consistent s -> step s s' -> consistent s'.
Proof.
  intros (I1 & I2 & I3) St. destruct St as [h s|g r h s U|s|new s].
  - rewrite stepApp_spec.
    destruct s as [m ps a p]; unfold consistent in *;
      cbn [mode photos activePhotoIndex modeEffectPending] in *.
    destruct (isPresent h), (gesture h), m;
      cbn [mode photos activePhotoIndex modeEffectPending];
      repeat split; intros; try discriminate; try congruence; auto.
  - rewrite stepFrame_spec.
    destruct s as [m ps a p]; unfold consistent in *;
      cbn [mode photos activePhotoIndex modeEffectPending] in *.
    destruct (g && GestureType_eqb (gesture h) PINCH && AppMode_eqb m SCATTER
              && match a with None => true | Some _ => false end) eqn:E;
      cbn [andb]; [|repeat split; assumption].
    destruct (Nat.ltb_spec 0 (List.length ps)) as [L|L];
      cbn [mode photos activePhotoIndex modeEffectPending];
      [|repeat split; assumption].
    repeat split; intros; try discriminate.
    match goal with H : Some _ = Some _ |- _ => injection H as <- end.
    apply randomIndex_lt; assumption.
  - rewrite stepModeEffect_spec.
    destruct s as [m ps a p]; unfold consistent in *;
      cbn [mode photos activePhotoIndex modeEffectPending] in *.
    destruct p; [|repeat split; assumption].
    cbn [mode photos activePhotoIndex modeEffectPending].
    destruct m; repeat split; intros; try discriminate; try congruence; auto.
  - destruct s as [m ps a p]; unfold consistent, handlePhotoUpload in *;
      cbn [mode photos activePhotoIndex modeEffectPending] in *.
    repeat split; auto.
    intros i E. rewrite length_app. specialize (I3 i E). lia.
Qed.

Lemma reachable_consistent (s : Store) : reachable s -> consistent s.
Proof.
  induction 1 as [|s s' _ IH St]; [apply consistent_initial|].
  apply (consistent_step s s' IH St).
Qed.

(** *** Transitions *)

Ltac callbacks0 :=
  repeat (progress
            (rewrite ?stepApp_mk, ?stepModeEffect_mk, ?stepFrame_mk;
             cbn [isPresent gesture andb GestureType_eqb AppMode_eqb
                  mode photos activePhotoIndex modeEffectPending
                  List.length Nat.ltb Nat.leb])).



(** C2 — mode transitions of a present signal, one signal at a time:
    [FIST] from [SCATTER] or [PHOTO_VIEW] leads to [TREE] with nothing
    selected, and is a no-op in [TREE]; [OPEN_HAND] from [TREE] leads to
    [SCATTER]; [OPEN_HAND] from [PHOTO_VIEW] leads to [SCATTER] with the
    selection cleared (so never to [TREE]); a signal that matches no row
    of the table leaves the store, and so the mode, as it was. *)
Theorem C2_mode_transitions (random : Q) (h : HandData) (s : Store) :
  isPresent h = true ->
  (gesture h = FIST -> mode s <> TREE ->
     mode (onSignal random h s) = TREE
     /\ activePhotoIndex (onSignal random h s) = None)
  /\ (gesture h = FIST -> mode s = TREE ->
      mode (onSignal random h s) = TREE
      /\ (modeEffectPending s = false -> onSignal random h s = s))
  /\ (gesture h = OPEN_HAND -> mode s = TREE ->
      mode (onSignal random h s) = SCATTER)
  /\ (gesture h = OPEN_HAND -> mode s = PHOTO_VIEW ->
      mode (onSignal random h s) = SCATTER
      /\ mode (onSignal random h s) <> TREE
      /\ activePhotoIndex (onSignal random h s) = None)
  /\ (modeEffectPending s = false -> ~ trigger h s ->
      onSignal random h s = s).
Proof.
  destruct s as [m ps a p], h as [ge hx hy pr]. cbn. intros ->.
  unfold onSignal.
  split; [|split; [|split; [|split]]].
  - intros -> M. destruct m, a, p; try contradiction; callbacks0;
      split; reflexivity.
  - intros -> ->. destruct a, p; callbacks0;
      (split; [reflexivity | intros; congruence]).
  - intros -> ->. destruct a, p; callbacks0; reflexivity.
  - intros -> ->. destruct a, p; callbacks0;
      (split; [reflexivity | split; [discriminate | reflexivity]]).
  - intros -> NT. unfold trigger in NT. cbn in NT.
    destruct ps as [|u ps]; destruct ge, m, a; callbacks0;
      first [ reflexivity
            | exfalso; apply NT; intuition (congruence || discriminate) ].
Qed.

(** C2, releasing the only photo with an open hand. *)
Lemma C2_mode_transitions_witness :
  mode (onSignal half (signal OPEN_HAND true) (viewing ["a"%string] 0))
  = SCATTER
  /\ activePhotoIndex
       (onSignal half (signal OPEN_HAND true) (viewing ["a"%string] 0))
     = None.
Proof.
  destruct (C2_mode_transitions half (signal OPEN_HAND true)
              (viewing ["a"%string] 0) eq_refl)
    as (_ & _ & _ & R & _).
  destruct (R eq_refl eq_refl) as (M & _ & A). split; [exact M | exact A].
Defined.



Lemma viewingStore_reachable : reachable viewingStore.
Proof.
  unfold viewingStore.
  repeat first [ eapply reach_step;
                 [| first [ apply step_effect
                          | apply step_frame, unitDraw_half
                          | apply step_app
                          | apply step_upload ] ]
               | apply reach_init ].
Qed.

(** *** With the effect on the mode of its render *)

Lemma Scheduled_stepApp_mk (h : HandData) (m : AppMode) (ps : list string)
    (a : option nat) (e : list AppMode) :
  Scheduled.stepApp h (Scheduled.mkStore m ps a e) =
  if isPresent h then
    match gesture h, m with
    | FIST, (SCATTER | PHOTO_VIEW) => Scheduled.mkStore TREE ps a (e ++ [TREE])
    | OPEN_HAND, (TREE | PHOTO_VIEW) =>
        Scheduled.mkStore SCATTER ps a (e ++ [SCATTER])
    | _, _ => Scheduled.mkStore m ps a e
    end
  else Scheduled.mkStore m ps a e.
Proof.
  unfold Scheduled.stepApp, App_useEffect. cbn [Scheduled.mode].
  destruct (isPresent h), (gesture h), m; reflexivity.
Qed.

Lemma Scheduled_stepFrame_mk (g : bool) (random : Q) (h : HandData)
    (m : AppMode) (ps : list string) (a : option nat) (e : list AppMode) :
  Scheduled.stepFrame g random h (Scheduled.mkStore m ps a e) =
  if g && GestureType_eqb (gesture h) PINCH && AppMode_eqb m SCATTER
     && match a with None => true | Some _ => false end
     && (0 <? List.length ps)
  then Scheduled.mkStore PHOTO_VIEW ps
         (Some (randomIndex random (List.length ps))) (e ++ [PHOTO_VIEW])
  else Scheduled.mkStore m ps a e.
Proof.
  unfold Scheduled.stepFrame, MagicParticles_useFrame.
  cbn [Scheduled.mode Scheduled.photos Scheduled.activePhotoIndex].
  rewrite photoParticles_length.
  destruct g, (gesture h), m, a, (0 <? List.length ps); reflexivity.
Qed.

Lemma Scheduled_stepModeEffect_mk (m : AppMode) (ps : list string)
    (a : option nat) (c : AppMode) (e : list AppMode) :
  Scheduled.stepModeEffect (Scheduled.mkStore m ps a (c :: e)) =
  Scheduled.mkStore m ps (match c with PHOTO_VIEW => a | _ => None end) e.
Proof. destruct c; reflexivity. Qed.

(** Running all due effects keeps the mode and the photos, and clears the
    selection as soon as one of them comes from a render outside
    [PHOTO_VIEW]. *)
Lemma Scheduled_flushEffects_mk (m : AppMode) (ps : list string)
    (a : option nat) (e : list AppMode) :
  Scheduled.flushEffects (Scheduled.mkStore m ps a e) =
  Scheduled.mkStore m ps
    (if existsb (fun c => negb (AppMode_eqb c PHOTO_VIEW)) e then None
     else a) [].
Proof.
  unfold Scheduled.flushEffects. cbn [Scheduled.effects].
  revert a. induction e as [|c e IH]; intros a; [reflexivity|].
  cbn [List.length]. rewrite Nat.iter_succ_r, Scheduled_stepModeEffect_mk, IH.
  destruct c; cbn [existsb AppMode_eqb negb orb]; try reflexivity;
    destruct (existsb _ e); reflexivity.
Qed.

Lemma Scheduled_consistent_step (s s' : Scheduled.Store) :
  Scheduled.consistent s -> Scheduled.step s s' -> Scheduled.consistent s'.
Proof.
  intros (I1 & I2) St.
  destruct St as [h s|g r h s U|s|new s]; destruct s as [m ps a e];
    unfold Scheduled.consistent in *;
    cbn [Scheduled.mode Scheduled.photos Scheduled.activePhotoIndex
         Scheduled.effects] in *.
  - rewrite Scheduled_stepApp_mk.
    destruct (isPresent h), (gesture h), m;
      cbn [Scheduled.mode Scheduled.photos Scheduled.activePhotoIndex
           Scheduled.effects];
      (split; [exact I1|]); try exact I2; intros; eexists; reflexivity.
  - rewrite Scheduled_stepFrame_mk.
    destruct (g && GestureType_eqb (gesture h) PINCH && AppMode_eqb m SCATTER
              && match a with None => true | Some _ => false end) eqn:E;
      cbn [andb]; [|split; assumption].
    destruct (Nat.ltb_spec 0 (List.length ps)) as [L|L];
      cbn [Scheduled.mode Scheduled.photos Scheduled.activePhotoIndex
           Scheduled.effects]; [|split; assumption].
    split; [|intros _ C; contradiction C; reflexivity].
    intros i Hi. injection Hi as <-. apply randomIndex_lt; assumption.
  - destruct e as [|c e]; [split; assumption|].
    rewrite Scheduled_stepModeEffect_mk.
    cbn [Scheduled.mode Scheduled.photos Scheduled.activePhotoIndex
         Scheduled.effects].
    destruct c; try (split; [intros; discriminate
                            | intros C; contradiction C; reflexivity]).
    split; [exact I1|]. intros A M.
    destruct (I2 A M) as (older & E).
    destruct older as [|o older]; cbn in E.
    + injection E as E _. contradiction M. symmetry. exact E.
    + injection E as _ E. exists older. exact E.
  - unfold Scheduled.handlePhotoUpload.
    cbn [Scheduled.mode Scheduled.photos Scheduled.activePhotoIndex
         Scheduled.effects].
    split; [|exact I2].
    intros i E. rewrite length_app. specialize (I1 i E). lia.
Qed.

Lemma Scheduled_reachable_consistent (s : Scheduled.Store) :
  Scheduled.reachable s -> Scheduled.consistent s.
Proof.
  induction 1 as [|s s' _ IH St].
  - split; [intros; discriminate | intros C; contradiction C; reflexivity].
  - apply (Scheduled_consistent_step s s' IH St).
Qed.

Lemma Scheduled_viewingStore_reachable :
  Scheduled.reachable Scheduled.viewingStore.
Proof.
  unfold Scheduled.viewingStore, Scheduled.scatteredStore.
  repeat first [ eapply Scheduled.reach_step;
                 [| first [ apply Scheduled.step_effect
                          | apply Scheduled.step_frame, unitDraw_half
                          | apply Scheduled.step_app
                          | apply Scheduled.step_upload ] ]
               | apply Scheduled.reach_init ].
Qed.

Lemma Scheduled_releasedStore_reachable :
  Scheduled.reachable Scheduled.releasedStore.
Proof.
  unfold Scheduled.releasedStore.
  eapply Scheduled.reach_step;
    [apply Scheduled_viewingStore_reachable | apply Scheduled.step_app].
Qed.

(** Only [useFrame] enters [PHOTO_VIEW], and it selects a valid photo in
    the same callback. *)
Lemma Scheduled_step_enters_view (s s' : Scheduled.Store) :
  Scheduled.step s s' ->
  Scheduled.mode s <> PHOTO_VIEW -> Scheduled.mode s' = PHOTO_VIEW ->
  exists i : nat,
    Scheduled.activePhotoIndex s' = Some i
    /\ i < List.length (Scheduled.photos s').
Proof.
  intros St. destruct St as [h s|g r h s U|s|new s];
    destruct s as [m ps a e]; cbn [Scheduled.mode]; intros N M.
  - rewrite Scheduled_stepApp_mk in M.
    destruct (isPresent h), (gesture h), m; cbn in M; congruence.
  - rewrite Scheduled_stepFrame_mk in M |- *.
    destruct (g && GestureType_eqb (gesture h) PINCH && AppMode_eqb m SCATTER
              && match a with None => true | Some _ => false end);
      cbn [andb] in M |- *; [|cbn in M; congruence].
    destruct (Nat.ltb_spec 0 (List.length ps)) as [L|L];
      [|cbn in M; congruence].
    eexists. split; [reflexivity|]. apply randomIndex_lt; assumption.
  - destruct e as [|c e]; [cbn in M; congruence|].
    rewrite Scheduled_stepModeEffect_mk in M. cbn in M. congruence.
  - cbn in M. congruence.
Qed.

(** Only the effect of [App] leaves [PHOTO_VIEW]; it leaves the selection
    to the effect of the render it causes. *)
Lemma Scheduled_step_leaves_view (s s' : Scheduled.Store) :
  Scheduled.step s s' ->
  Scheduled.mode s = PHOTO_VIEW -> Scheduled.mode s' <> PHOTO_VIEW ->
  Scheduled.activePhotoIndex s' = Scheduled.activePhotoIndex s
  /\ Scheduled.effects s' = Scheduled.effects s ++ [Scheduled.mode s']
  /\ Scheduled.mode (Scheduled.flushEffects s') = Scheduled.mode s'
  /\ Scheduled.activePhotoIndex (Scheduled.flushEffects s') = None
  /\ Scheduled.effects (Scheduled.flushEffects s') = [].
Proof.
  intros St. destruct St as [h s|g r h s U|s|new s];
    destruct s as [m ps a e]; cbn [Scheduled.mode]; intros -> N.
  - rewrite Scheduled_stepApp_mk in N |- *.
    destruct (isPresent h), (gesture h);
      try (contradiction N; reflexivity);
      rewrite Scheduled_flushEffects_mk;
      cbn [Scheduled.mode Scheduled.photos Scheduled.activePhotoIndex
           Scheduled.effects];
      rewrite existsb_app; cbn [existsb AppMode_eqb negb orb];
      rewrite orb_true_r; repeat split.
  - rewrite Scheduled_stepFrame_mk in N.
    cbn [AppMode_eqb andb] in N. rewrite andb_false_r in N.
    contradiction N; reflexivity.
  - destruct e as [|c e]; [contradiction N; reflexivity|].
    rewrite Scheduled_stepModeEffect_mk in N. contradiction N; reflexivity.
  - contradiction N; reflexivity.
Qed.

(** One signal at a time, from a store with no effect due, the two
    stores agree: the effects that run are those of the renders the
    signal itself causes, in order. *)
Lemma Scheduled_onSignal_coarse (random : Q) (h : HandData)
    (s : Scheduled.Store) :
  Scheduled.effects s = [] ->
  coarse (Scheduled.onSignal random h s) = onSignal random h (coarse s)
  /\ Scheduled.effects (Scheduled.onSignal random h s) = [].
Proof.
  destruct s as [m ps a e], h as [ge hx hy pr]. cbn [Scheduled.effects].
  intros ->. unfold Scheduled.onSignal, onSignal, coarse.
  cbn [Scheduled.mode Scheduled.photos Scheduled.activePhotoIndex
       Scheduled.effects].
  destruct (0 <? List.length ps) eqn:L;
    destruct pr, ge, m, a;
    repeat (progress
              (rewrite ?Scheduled_stepApp_mk, ?Scheduled_flushEffects_mk,
                 ?Scheduled_stepFrame_mk, ?L;
               cbn [isPresent gesture andb GestureType_eqb AppMode_eqb
                    existsb negb orb app
                    Scheduled.mode Scheduled.photos
                    Scheduled.activePhotoIndex Scheduled.effects]));
    callbacks L; split; reflexivity.
Qed.

(** C4, as amended — selection and mode.  In every reachable store a
    selected photo has a valid index, and once every [mode] effect that
    is due has run a photo is selected only in [PHOTO_VIEW].  The
    callback that enters [PHOTO_VIEW] selects a valid photo in the same
    callback.  A callback that leaves [PHOTO_VIEW] changes the mode first
    and keeps the selection; the effect of the render it causes is then
    due, and running the due effects clears the selection without
    touching the mode.  The first store is [TREE] with nothing
    selected. *)
Theorem C4_selection_follows_mode (s : Scheduled.Store) :
  Scheduled.reachable s ->
  (forall i : nat,
     Scheduled.activePhotoIndex s = Some i ->
     i < List.length (Scheduled.photos s))
  /\ (Scheduled.effects s = [] ->
      Scheduled.activePhotoIndex s <> None ->
      Scheduled.mode s = PHOTO_VIEW)
  /\ (forall s' : Scheduled.Store,
        Scheduled.step s s' ->
        Scheduled.mode s <> PHOTO_VIEW -> Scheduled.mode s' = PHOTO_VIEW ->
        exists i : nat,
          Scheduled.activePhotoIndex s' = Some i
          /\ i < List.length (Scheduled.photos s'))
  /\ (forall s' : Scheduled.Store,
        Scheduled.step s s' ->
        Scheduled.mode s = PHOTO_VIEW -> Scheduled.mode s' <> PHOTO_VIEW ->
        Scheduled.activePhotoIndex s' = Scheduled.activePhotoIndex s
        /\ Scheduled.effects s' = Scheduled.effects s ++ [Scheduled.mode s']
        /\ Scheduled.mode (Scheduled.flushEffects s') = Scheduled.mode s'
        /\ Scheduled.activePhotoIndex (Scheduled.flushEffects s') = None
        /\ Scheduled.effects (Scheduled.flushEffects s') = [])
  /\ Scheduled.mode Scheduled.initialStore = TREE
  /\ Scheduled.activePhotoIndex Scheduled.initialStore = None.
Proof.
  intros R. destruct (Scheduled_reachable_consistent s R) as (I1 & I2).
  split; [exact I1|]. split.
  - intros E A.
    destruct (Scheduled.mode s) eqn:M; try reflexivity;
      (destruct I2 as (older & O); [exact A | discriminate |]);
      rewrite E in O; destruct older; discriminate O.
  - split; [intros s'; apply Scheduled_step_enters_view|].
    split; [intros s'; apply Scheduled_step_leaves_view|].
    split; reflexivity.
Qed.

(** C4 as stated fails: right after the open hand that releases a photo
    the mode is already [SCATTER] while the photo is still selected. *)
Lemma C4_counterexample :
  ~ (forall s : Scheduled.Store,
       Scheduled.reachable s ->
       (Scheduled.activePhotoIndex s <> None
        <-> Scheduled.mode s = PHOTO_VIEW)).
Proof.
  intros C.
  destruct (C Scheduled.releasedStore Scheduled_releasedStore_reachable)
    as [C1 _].
  assert (M : Scheduled.mode Scheduled.releasedStore = PHOTO_VIEW)
    by (apply C1; discriminate).
  discriminate M.
Qed.

(** C4 as amended, on the open hand that releases the viewed photo. *)
Lemma C4_selection_follows_mode_witness :
  Scheduled.activePhotoIndex Scheduled.releasedStore = Some 0
  /\ Scheduled.mode (Scheduled.flushEffects Scheduled.releasedStore) = SCATTER
  /\ Scheduled.activePhotoIndex
       (Scheduled.flushEffects Scheduled.releasedStore) = None.
Proof.
  destruct (C4_selection_follows_mode Scheduled.viewingStore
              Scheduled_viewingStore_reachable) as (_ & _ & _ & L & _).
  destruct (L Scheduled.releasedStore) as (A & _ & M & N & _).
  - apply Scheduled.step_app.
  - reflexivity.
  - discriminate.
  - split; [exact A|]. split; [exact M | exact N].
Defined.

(** C5 as stated fails on a signal that is not present and still carries
    [PINCH]: the effect of [App] dispatches nothing, but [useFrame] tests
    the gesture only, and in [SCATTER] with one photo it selects the
    photo and switches to [PHOTO_VIEW]. *)
Lemma C5_stale_pinch_changes_mode :
  isPresent (signal PINCH false) = false
  /\ stepApp (signal PINCH false) (scattered ["a"%string])
     = scattered ["a"%string]
  /\ MagicParticles_useFrame true half (signal PINCH false) SCATTER None
       (photoParticles ["a"%string])
     = [setActivePhotoIndex (Some 0); setMode PHOTO_VIEW]
  /\ mode (onSignal half (signal PINCH false) (scattered ["a"%string]))
     = PHOTO_VIEW
  /\ mode (scattered ["a"%string]) = SCATTER.
Proof.
  repeat split.
Qed.

(** The presence guard of [App]: an absent signal dispatches nothing
    there, whatever its gesture. *)
Lemma App_useEffect_absent (h : HandData) (m : AppMode) :
  isPresent h = false -> App_useEffect h m = [].
Proof. intros E. unfold App_useEffect. rewrite E. reflexivity. Qed.

(** X18 — stale gestures other than a pinch.  A signal that is not
    present never changes the mode unless its gesture is [PINCH]: the
    effect of [App] returns early and [useFrame] only reacts to
    [PINCH]. *)
Lemma absent_signal_inert_unless_pinch (random : Q) (h : HandData)
    (s : Store) :
  isPresent h = false -> gesture h <> PINCH ->
  mode (onSignal random h s) = mode s.
Proof.
  destruct s as [m ps a p], h as [ge hx hy pr]. cbn. intros -> G.
  unfold onSignal.
  destruct ge; try (contradiction G; reflexivity);
    destruct p; callbacks0; destruct m; callbacks0; reflexivity.
Qed.

(** X17 — tracker and controller together.  The tracker never publishes
    a stale gesture, so whatever frames have arrived, when the signal it
    publishes is not present processing that signal leaves the mode
    alone. *)
Lemma published_absent_signal_inert (hypot : float -> float -> float)
    (frames : list Results) (random : Q) (s : Store) :
  isPresent (track hypot frames) = false ->
  mode (onSignal random (track hypot frames) s) = mode s.
Proof.
  intros P. pose proof (track_absent_NONE hypot frames P) as G.
  destruct (track hypot frames) as [ge hx hy pr]. cbn in P, G. subst.
  destruct s as [m ps a p]. unfold onSignal.
  destruct p; callbacks0; destruct m; callbacks0; reflexivity.
Qed.

(** C5, as amended — absent signals.  The effect of [App] dispatches
    nothing on a signal that is not present, whatever its gesture.  A
    signal that is not present and whose gesture is not [PINCH] never
    changes the mode.  And the tracker only ever publishes [NONE] with a
    signal that is not present, so no signal it publishes while the hand
    is absent changes the mode; this, and no presence test, is what keeps
    the pinch branch of [useFrame] from firing on an absent hand. *)
Theorem C5_absent_signal_inert :
  (forall (h : HandData) (m : AppMode),
     isPresent h = false -> App_useEffect h m = [])
  /\ (forall (random : Q) (h : HandData) (s : Store),
        isPresent h = false -> gesture h <> PINCH ->
        mode (onSignal random h s) = mode s)
  /\ (forall (hypot : float -> float -> float) (frames : list Results)
             (random : Q) (s : Store),
        isPresent (track hypot frames) = false ->
        gesture (track hypot frames) = NONE
        /\ mode (onSignal random (track hypot frames) s) = mode s).
Proof.
  assert (G : forall (random : Q) (h : HandData) (s : Store),
            isPresent h = false -> gesture h <> PINCH ->
            mode (onSignal random h s) = mode s).
  { intros random h s. destruct s as [m ps a p], h as [ge hx hy pr]. cbn.
    intros -> N. unfold onSignal.
    destruct ge; try (contradiction N; reflexivity);
      destruct p; callbacks0; destruct m; callbacks0; reflexivity. }
  split; [|split; [exact G|]].
  - intros h m E. unfold App_useEffect. rewrite E. reflexivity.
  - intros hypot frames random s P.
    pose proof (track_absent_NONE hypot frames P) as N.
    split; [exact N|]. apply G; [exact P|]. rewrite N. discriminate.
Qed.

(** C5 as amended, on the signal published after a palm has left the
    image. *)
Lemma C5_absent_signal_inert_witness :
  gesture (track Math_hypot
             [frameOf openPalm; {| multiHandLandmarks := None |}]) = NONE
  /\ mode (onSignal half
             (track Math_hypot
                [frameOf openPalm; {| multiHandLandmarks := None |}])
             (scattered ["a"%string])) = SCATTER.
Proof.
  apply (proj2 (proj2 C5_absent_signal_inert) Math_hypot
           [frameOf openPalm; {| multiHandLandmarks := None |}] half
           (scattered ["a"%string])).
  reflexivity.
Defined.

(** C9 — pinch without photos.  A present [PINCH] in [SCATTER] with no
    photo and nothing selected dispatches no update from either callback:
    the store stays as it is, in [SCATTER] with nothing selected, and
    neither callback can fail. *)
Theorem C9_pinch_without_photos (random : Q) (h : HandData) (s : Store) :
  isPresent h = true -> gesture h = PINCH ->
  mode s = SCATTER -> photos s = [] -> activePhotoIndex s = None ->
  App_useEffect h (mode s) = []
  /\ MagicParticles_useFrame true random h (mode s) (activePhotoIndex s)
       (photoParticles (photos s)) = []
  /\ mode (onSignal random h s) = SCATTER
  /\ activePhotoIndex (onSignal random h s) = None
  /\ photos (onSignal random h s) = [].
Proof.
  destruct s as [m ps a p], h as [ge hx hy pr]. cbn.
  intros -> -> -> -> ->. unfold onSignal.
  destruct p; callbacks0; repeat split.
Qed.

(** C9, on the settled empty scatter. *)
Lemma C9_pinch_without_photos_witness :
  mode (onSignal half (signal PINCH true) (scattered [])) = SCATTER
  /\ activePhotoIndex (onSignal half (signal PINCH true) (scattered []))
     = None.
Proof.
  destruct (C9_pinch_without_photos half (signal PINCH true) (scattered [])
              eq_refl eq_refl eq_refl eq_refl eq_refl)
    as (_ & _ & M & A & _).
  split; [exact M | exact A].
Defined.

(** * Further properties of the tracker *)

Lemma fold_processFrame_app (hypot : float -> float -> float)
    (fs gs : list Results) (h0 : HandData) :
  fold_left (fun h r => processFrame hypot r h) (fs ++ gs) h0
  = fold_left (fun h r => processFrame hypot r h) gs
      (fold_left (fun h r => processFrame hypot r h) fs h0).
Proof. apply fold_left_app. Qed.

(** X1 — the published signal between hands.  Whatever frames arrive, a
    published signal that is not present carries the gesture [NONE]; and
    as long as no frame has brought a hand of 21 landmarks or more, the
    published signal is still the initial one. *)
Theorem published_signal_invariant (hypot : float -> float -> float)
    (frames : list Results) :
  (isPresent (track hypot frames) = false ->
     gesture (track hypot frames) = NONE)
  /\ (forallb (fun r => noHand r || shortFrame r) frames = true ->
      track hypot frames = initialHandData).
Proof.
  split; [apply track_absent_NONE|].
  unfold track. generalize (eq_refl initialHandData).
  generalize initialHandData at 1 3 as h0.
  induction frames as [|r frames IH]; intros h0 E F; [exact E|].
  cbn [forallb] in F. apply andb_true_iff in F as [Fr F].
  cbn [fold_left]. apply IH; [|exact F].
  subst h0. unfold processFrame.
  destruct r as [[[|landmarks others]|]]; try reflexivity.
  unfold noHand, shortFrame in Fr. cbn [multiHandLandmarks orb] in Fr.
  apply Nat.ltb_lt in Fr.
  rewrite (onResults_short hypot landmarks others _ Fr). reflexivity.
Qed.

(** X1, on an absent frame followed by a five-landmark frame. *)
Lemma published_signal_invariant_witness :
  track Math_hypot [{| multiHandLandmarks := None |}; frameOf shortHand]
  = initialHandData.
Proof.
  apply (proj2 (published_signal_invariant Math_hypot
                  [{| multiHandLandmarks := None |}; frameOf shortHand])).
  reflexivity.
Defined.

(** X2 — a frame whose first hand has fewer than 21 landmarks is as if it
    had never arrived: dropping it from any sequence of frames leaves the
    published signal the same. *)
Theorem short_frame_is_skipped (hypot : float -> float -> float)
    (before after : list Results) (bad : Results) :
  shortFrame bad = true ->
  track hypot (before ++ bad :: after) = track hypot (before ++ after).
Proof.
  intros B. unfold track. rewrite !fold_processFrame_app.
  cbn [fold_left]. f_equal.
  destruct bad as [[[|landmarks others]|]]; try discriminate B.
  unfold shortFrame in B. cbn [multiHandLandmarks] in B.
  apply Nat.ltb_lt in B. unfold processFrame.
  rewrite (onResults_short hypot landmarks others _ B). reflexivity.
Qed.

(** X2, with the five-landmark frame between an open palm and a fist. *)
Lemma short_frame_is_skipped_witness :
  track Math_hypot [frameOf openPalm; frameOf shortHand; frameOf closedFist]
  = track Math_hypot [frameOf openPalm; frameOf closedFist].
Proof.
  apply (short_frame_is_skipped Math_hypot [frameOf openPalm]
           [frameOf closedFist] (frameOf shortHand)).
  reflexivity.
Defined.

(** X3 — what a present frame depends on.  The published signal of a
    frame with a hand is a function of the [x] and [y] of the eleven
    landmarks 0, 4, 6, 8, 9, 10, 12, 14, 16, 18 and 20 of the first hand:
    depth, the other landmarks, further hands and the previously
    published signal play no part. *)
Theorem onResults_reads_eleven_landmarks (hypot : float -> float -> float)
    (l1 l2 : list Landmark.t) (others1 others2 : list (list Landmark.t))
    (prev1 prev2 : HandData) :
  sameReadings l1 l2 ->
  onResults hypot {| multiHandLandmarks := Some (l1 :: others1) |} prev1
  = onResults hypot {| multiHandLandmarks := Some (l2 :: others2) |} prev2.
Proof.
  intros S.
  assert (R : forall i f, In i readIndices ->
                (f = Landmark.x \/ f = Landmark.y) ->
                rd l1 i f = rd l2 i f).
  { intros i f Hi Hf. destruct (S i Hi) as (a & b & E1 & E2 & Ex & Ey).
    unfold rd. rewrite E1, E2. destruct Hf as [-> | ->]; congruence. }
  assert (I : forall i, In i [0; 4; 6; 8; 9; 10; 12; 14; 16; 18; 20] ->
                In i readIndices) by (intros i Hi; exact Hi).
  unfold onResults, centerX, centerY, openFingersCount, isFingerOpen,
    handScale, pinchDist. cbn [multiHandLandmarks].
  rewrite !(R 0), !(R 4), !(R 6), !(R 8), !(R 9), !(R 10), !(R 12),
    !(R 14), !(R 16), !(R 18), !(R 20);
    try (left; reflexivity); try (right; reflexivity);
    try (apply I; simpl; tauto).
  reflexivity.
Qed.

(** X3, on the open palm against the same palm pushed back in depth, with
    a second hand in the frame and another signal published before. *)
Lemma onResults_reads_eleven_landmarks_witness :
  onResults Math_hypot
    {| multiHandLandmarks :=
         Some [map (fun l => {| Landmark.x := Landmark.x l;
                                Landmark.y := Landmark.y l;
                                Landmark.z := 1%float |}) openPalm;
               closedFist] |}
    (signal PINCH true)
  = onResults Math_hypot (frameOf openPalm) initialHandData.
Proof.
  apply onResults_reads_eleven_landmarks.
  intros i Hi. simpl in Hi.
  repeat (destruct Hi as [<- | Hi];
          [do 2 eexists; repeat split; reflexivity|]).
  contradiction.
Defined.

Lemma Prim2SF_nan (a : float) : is_nan a = true -> Prim2SF a = S754_nan.
Proof. intros H. unfold Prim2SF. rewrite H. reflexivity. Qed.

(** A comparison with NaN on either side is false. *)
Lemma ltb_nan (a b : float) :
  is_nan a || is_nan b = true -> (a <? b)%float = false.
Proof.
  intros H. rewrite ltb_spec. unfold SFltb.
  apply orb_true_iff in H as [H|H]; rewrite (Prim2SF_nan _ H).
  - reflexivity.
  - destruct (Prim2SF a); reflexivity.
Qed.

(** X4 — NaN heights.  A hand in which each of the four finger tests
    meets a NaN height, at the tip or at the PIP joint, has no open finger
    and is published as a present [FIST], whatever its other
    coordinates. *)
Theorem nan_heights_give_fist (hypot : float -> float -> float)
    (landmarks : list Landmark.t) (others : list (list Landmark.t))
    (prev : HandData) :
  nanFinger landmarks 8 6 -> nanFinger landmarks 12 10 ->
  nanFinger landmarks 16 14 -> nanFinger landmarks 20 18 ->
  exists h : HandData,
    onResults hypot {| multiHandLandmarks := Some (landmarks :: others) |}
              prev = Normal h
    /\ openFingersCount landmarks = Normal 0
    /\ isPresent h = true
    /\ gesture h = FIST.
Proof.
  intros (t1 & p1 & T1 & P1 & N1) (t2 & p2 & T2 & P2 & N2)
         (t3 & p3 & T3 & P3 & N3) (t4 & p4 & T4 & P4 & N4).
  assert (H : 21 <= List.length landmarks).
  { assert (L : 20 < List.length landmarks)
      by (apply nth_error_Some; rewrite T4; discriminate).
    exact L. }
  assert (En : openFingersCount landmarks = Normal 0).
  { unfold openFingersCount, isFingerOpen, rd.
    rewrite T1, P1, T2, P2, T3, P3, T4, P4. cbn [bind].
    rewrite (ltb_nan _ _ N1), (ltb_nan _ _ N2), (ltb_nan _ _ N3),
      (ltb_nan _ _ N4). reflexivity. }
  destruct (reads_21 hypot landmarks H)
    as (wrist & knuckle & n & scale & dist & _ & _ & Ex & Ey & _ & Es & Ed).
  eexists. split; [eapply onResults_unfold; eassumption|].
  split; [exact En|]. split; reflexivity.
Qed.

(** X4, on the palm whose fingertip heights are NaN. *)
Lemma nan_heights_give_fist_witness :
  exists h : HandData,
    onResults Math_hypot (frameOf blurredPalm) initialHandData = Normal h
    /\ gesture h = FIST.
Proof.
  destruct (nan_heights_give_fist Math_hypot blurredPalm []
              initialHandData) as (h & E & _ & _ & G);
    try (do 2 eexists; split; [reflexivity|split; reflexivity]).
  exists h. split; [exact E | exact G].
Defined.

(** * Further properties of the controller *)

(** X5, on a schedule that runs the frame callback first and last. *)
Lemma run_settles_witness :
  exists random : Q,
    unitDraw random
    /\ frameFirst = onSignal random (signal PINCH true)
                      (scattered ["a"%string]).
Proof.
  apply run_settles.
  - reflexivity.
  - unfold frameFirst.
    apply (run_frame _ true half _ _ unitDraw_half), run_effect, run_app.
    apply (run_frame _ true (1 # 4)); [split; [discriminate|reflexivity]|].
    apply run_done.
  - split; [reflexivity|]. split; [reflexivity|].
    intros g random. rewrite stepFrame_spec. destruct g; reflexivity.
Defined.

(** X6 — a held gesture acts once.  Processing the same hand signal again,
    with whatever draw, leaves the store that the first processing
    produced. *)
Theorem onSignal_idempotent (r1 r2 : Q) (h : HandData) (s : Store) :
  onSignal r2 h (onSignal r1 h s) = onSignal r1 h s.
Proof.
  destruct (onSignal_quiescent r1 h s) as (QA & QE & QF).
  unfold onSignal at 1. rewrite QA, QE, (QF true r2), QE. reflexivity.
Qed.

Lemma onSignal_reachable (random : Q) (h : HandData) (s : Store) :
  unitDraw random -> reachable s -> reachable (onSignal random h s).
Proof.
  intros U R. unfold onSignal.
  eapply reach_step; [|apply step_effect].
  eapply reach_step; [|apply step_frame, U].
  eapply reach_step; [|apply step_effect].
  eapply reach_step; [exact R | apply step_app].
Qed.

Lemma onSignal_settled (random : Q) (h : HandData) (s : Store) :
  modeEffectPending (onSignal random h s) = false.
Proof.
  unfold onSignal.
  generalize (stepFrame true random h (stepModeEffect (stepApp h s))).
  intros t. rewrite stepModeEffect_spec.
  destruct (modeEffectPending t) eqn:E; [reflexivity | exact E].
Qed.

Lemma session_reachable (events : list Event) :
  unitDraws events ->
  reachable (session events) /\ modeEffectPending (session events) = false.
Proof.
  unfold session.
  assert (G : forall s0, reachable s0 -> modeEffectPending s0 = false ->
            unitDraws events ->
            reachable (fold_left handle events s0)
            /\ modeEffectPending (fold_left handle events s0) = false).
  { induction events as [|e events IH]; intros s0 R P U; [split; assumption|].
    inversion U as [|e' es Ue Ues]; subst.
    cbn [fold_left]. apply IH; trivial; destruct e as [r h|new]; cbn [handle].
    - apply onSignal_reachable; assumption.
    - eapply reach_step; [exact R | apply step_upload].
    - apply onSignal_settled.
    - exact P. }
  apply G.
  - eapply reach_step; [apply reach_init | apply step_effect].
  - reflexivity.
Qed.

(** X7 — selection and mode, signal by signal.  After the mount effects
    and any sequence of processed hand signals and photo uploads, a photo
    is selected if and only if the mode is [PHOTO_VIEW], and the selected
    index lies within the uploaded photos. *)
Theorem session_selection_iff_view (events : list Event) :
  unitDraws events ->
  (activePhotoIndex (session events) <> None
   <-> mode (session events) = PHOTO_VIEW)
  /\ (forall i, activePhotoIndex (session events) = Some i ->
        i < List.length (photos (session events))).
Proof.
  intros U. destruct (session_reachable events U) as [R P].
  destruct (reachable_consistent _ R) as (I1 & I2 & I3).
  split; [split|exact I3].
  - intros A. destruct (mode (session events)) eqn:M; try reflexivity;
      contradiction A; apply I2; trivial; discriminate.
  - exact I1.
Qed.

(** X7, on an upload, an open hand, a pinch, a second upload and a fist. *)
Lemma session_selection_iff_view_witness :
  activePhotoIndex
    (session [Upload ["a"%string]; Signal half (signal OPEN_HAND true);
              Signal half (signal PINCH true); Upload ["b"%string];
              Signal half (signal FIST true)]) <> None
  <-> mode
        (session [Upload ["a"%string]; Signal half (signal OPEN_HAND true);
                  Signal half (signal PINCH true); Upload ["b"%string];
                  Signal half (signal FIST true)]) = PHOTO_VIEW.
Proof.
  apply session_selection_iff_view.
  repeat constructor; try discriminate.
Defined.

(** X8 — the two resets.  From every reachable store a present [FIST]
    ends in [TREE] and a present [OPEN_HAND] ends in [SCATTER], in both
    cases with nothing selected, the photos untouched and no effect
    left to run. *)
Theorem fist_and_open_hand_reset (random : Q) (h : HandData) (s : Store) :
  reachable s -> isPresent h = true ->
  (gesture h = FIST ->
     onSignal random h s
     = {| mode := TREE; photos := photos s; activePhotoIndex := None;
          modeEffectPending := false |})
  /\ (gesture h = OPEN_HAND ->
      onSignal random h s
      = {| mode := SCATTER; photos := photos s; activePhotoIndex := None;
           modeEffectPending := false |}).
Proof.
  intros R P. destruct (reachable_consistent s R) as (I1 & I2 & _).
  destruct s as [m ps a p], h as [ge hx hy pr].
  cbn [mode photos activePhotoIndex modeEffectPending isPresent gesture] in *.
  subst pr. unfold onSignal.
  split; intros ->; destruct m, p, a as [k|]; callbacks0; try reflexivity;
    try (exfalso; apply I1; reflexivity);
    try (assert (C : Some k = None) by (apply I2; trivial; discriminate);
         discriminate C).
Qed.

(** X8, releasing the viewed photo with a fist. *)
Lemma fist_and_open_hand_reset_witness :
  onSignal half (signal FIST true) viewingStore
  = {| mode := TREE; photos := ["a"%string]; activePhotoIndex := None;
       modeEffectPending := false |}.
Proof.
  apply (fist_and_open_hand_reset half (signal FIST true) viewingStore
           viewingStore_reachable eq_refl).
  reflexivity.
Defined.



(** X10 — the way into [PHOTO_VIEW].  A callback that enters
    [PHOTO_VIEW] starts in [SCATTER] with nothing selected and at least
    one photo; and no hand signal, whatever it is, leads from [TREE] to
    [PHOTO_VIEW]. *)
Theorem view_entered_from_scatter :
  (forall s s' : Store,
     step s s' -> mode s' = PHOTO_VIEW -> mode s <> PHOTO_VIEW ->
     mode s = SCATTER /\ activePhotoIndex s = None /\ photos s <> [])
  /\ (forall (random : Q) (h : HandData) (s : Store),
        mode s = TREE -> mode (onSignal random h s) <> PHOTO_VIEW).
Proof.
  split.
  - intros s s' St M' M.
    destruct St as [h s|g r h s U|s|new s]; destruct s as [m ps a p];
      cbn [mode photos activePhotoIndex] in *.
    + destruct h as [ge hx hy pr]. revert M'.
      destruct pr, ge, m; callbacks0; intros; congruence.
    + revert M'. rewrite stepFrame_mk.
      destruct g, (gesture h), m, a, ps; cbn; intros;
        try congruence; repeat split; discriminate.
    + revert M'. rewrite stepModeEffect_mk. destruct p, m; cbn; congruence.
    + cbn in M'. congruence.
  - intros random h s. destruct s as [m ps a p], h as [ge hx hy pr].
    cbn [mode]. intros ->. unfold onSignal.
    destruct (0 <? List.length ps) eqn:L; destruct pr, ge, a, p;
      callbacks L; discriminate.
Qed.

(** X10, on the pinch that selects the uploaded photo. *)
Lemma view_entered_from_scatter_witness :
  mode (scattered ["a"%string]) = SCATTER
  /\ activePhotoIndex (scattered ["a"%string]) = None.
Proof.
  destruct (proj1 view_entered_from_scatter (scattered ["a"%string])
              (stepFrame true half (signal PINCH true)
                 (scattered ["a"%string])))
    as (M & A & _).
  - apply step_frame, unitDraw_half.
  - reflexivity.
  - discriminate.
  - split; [exact M | exact A].
Defined.

(** **** The draw *)

Lemma Zpos_of_nat (n : nat) : 0 < n -> Zpos (Pos.of_nat n) = Z.of_nat n.
Proof.
  intros H. rewrite <- (positive_nat_Z (Pos.of_nat n)).
  rewrite Nat2Pos.id; [reflexivity | lia].
Qed.

(** The draw [i / n] selects index [i]. *)
Lemma randomIndex_hits (n i : nat) :
  i < n ->
  unitDraw (Z.of_nat i # Pos.of_nat n)
  /\ randomIndex (Z.of_nat i # Pos.of_nat n) n = i.
Proof.
  intros H. assert (P : Zpos (Pos.of_nat n) = Z.of_nat n)
    by (apply Zpos_of_nat; lia).
  split; [split|].
  - unfold Qle. cbn [Qnum Qden]. lia.
  - unfold Qlt. cbn [Qnum Qden]. rewrite P. lia.
  - unfold randomIndex, Qfloor, Qmult, inject_Z. cbn [Qnum Qden].
    rewrite Pos.mul_1_r, P, Z.div_mul by lia. apply Nat2Z.id.
Qed.

(** **** Photos and their particles *)

Lemma combine_seq_ids (l : list string) (k : nat) :
  map id (map (fun p => {| id := fst p; photoUrl := snd p |})
              (combine (seq k (List.length l)) l))
  = seq k (List.length l)
  /\ map photoUrl (map (fun p => {| id := fst p; photoUrl := snd p |})
                       (combine (seq k (List.length l)) l))
     = l.
Proof.
  revert k. induction l as [|a l IH]; intros k; [split; reflexivity|].
  destruct (IH (S k)) as [I U]. cbn. rewrite I, U. split; reflexivity.
Qed.

(** X12 — photos and their particles.  [photoParticles] makes one
    particle per photo, in order: the particles carry the uploaded URLs
    again, and their [id]s are 0, 1, 2, ... without repetition; no photo
    gives no particle. *)
Theorem photoParticles_round_trip (urls : list string) :
  map photoUrl (photoParticles urls) = urls
  /\ map id (photoParticles urls) = seq 0 (List.length urls)
  /\ NoDup (map id (photoParticles urls))
  /\ (photoParticles urls = [] <-> urls = []).
Proof.
  assert (E : map photoUrl (photoParticles urls) = urls
              /\ map id (photoParticles urls) = seq 0 (List.length urls)).
  { destruct urls as [|u urls]; [split; reflexivity|].
    unfold photoParticles.
    destruct (combine_seq_ids (u :: urls) 0) as [I U]. split; assumption. }
  destruct E as [U I]. split; [exact U|]. split; [exact I|]. split.
  - rewrite I. apply seq_NoDup.
  - split; intros H.
    + rewrite <- U, H. reflexivity.
    + rewrite H. reflexivity.
Qed.

(** X13 — uploads while viewing.  In a reachable store the selected index
    always names an uploaded photo, and a further upload, which appends
    to the photos, changes neither the mode nor the selected index nor
    the URL found at that index. *)
Theorem upload_keeps_selection (s : Store) (i : nat) :
  reachable s -> activePhotoIndex s = Some i ->
  exists u : string,
    nth_error (photos s) i = Some u
    /\ forall newPhotos : list string,
         mode (handlePhotoUpload newPhotos s) = mode s
         /\ activePhotoIndex (handlePhotoUpload newPhotos s) = Some i
         /\ nth_error (photos (handlePhotoUpload newPhotos s)) i = Some u
         /\ firstn (List.length (photos s))
              (photos (handlePhotoUpload newPhotos s)) = photos s.
Proof.
  intros R A. destruct (reachable_consistent s R) as (_ & _ & I3).
  specialize (I3 i A).
  destruct (nth_error (photos s) i) as [u|] eqn:E;
    [|apply nth_error_None in E; lia].
  exists u. split; [reflexivity|]. intros newPhotos.
  split; [reflexivity|]. split; [exact A|].
  cbn [handlePhotoUpload photos]. split.
  - rewrite nth_error_app1; assumption.
  - rewrite firstn_app, Nat.sub_diag, firstn_all, firstn_O.
    apply app_nil_r.
Qed.

(** X13, uploading two photos while the first one is viewed. *)
Lemma upload_keeps_selection_witness :
  activePhotoIndex (handlePhotoUpload ["b"; "c"]%string viewingStore)
  = Some 0
  /\ nth_error (photos (handlePhotoUpload ["b"; "c"]%string viewingStore)) 0
     = Some "a"%string.
Proof.
  destruct (upload_keeps_selection viewingStore 0 viewingStore_reachable
              eq_refl) as (u & E & K).
  injection E as <-.
  destruct (K ["b"; "c"]%string) as (_ & A & P & _).
  split; [exact A | exact P].
Defined.

Lemma filter_none (A : Type) (f : A -> bool) (l : list A) :
  (forall a, In a l -> f a = false) -> filter f l = [].
Proof.
  induction l as [|a l IH]; intros H; [reflexivity|].
  cbn. rewrite (H a (or_introl eq_refl)). apply IH.
  intros b Hb. apply H. right. exact Hb.
Qed.

Lemma filter_id_below (l : list string) (k m : nat) :
  m < k ->
  filter (fun p => (m =? id p)%nat)
         (map (fun p => {| id := fst p; photoUrl := snd p |})
              (combine (seq k (List.length l)) l)) = [].
Proof.
  revert k. induction l as [|a l IH]; intros k H; [reflexivity|].
  cbn. destruct (Nat.eqb_spec m k); [lia|]. apply IH. lia.
Qed.

Lemma filter_id_hit (l : list string) (k j : nat) (u : string) :
  nth_error l j = Some u ->
  filter (fun p => (k + j =? id p)%nat)
         (map (fun p => {| id := fst p; photoUrl := snd p |})
              (combine (seq k (List.length l)) l))
  = [{| id := k + j; photoUrl := u |}].
Proof.
  revert k j. induction l as [|a l IH]; intros k j E;
    [destruct j; discriminate|].
  destruct j as [|j]; cbn in E |- *.
  - injection E as ->. rewrite Nat.add_0_r, Nat.eqb_refl.
    rewrite filter_id_below by lia. reflexivity.
  - destruct (Nat.eqb_spec (k + S j) k); [lia|].
    replace (k + S j) with (S k + j) by lia. apply IH, E.
Qed.

(** X14 — the target photo of the render.  In every reachable store the
    render of [MagicParticles] computes [isTargetPhoto] for every
    particle without reading past the photo particles; the particles it
    marks are exactly the selected one when a photo is selected and none
    otherwise, so nothing is marked outside [PHOTO_VIEW] once the [mode]
    effect has run. *)
Theorem render_marks_the_selection (s : Store) :
  reachable s ->
  (forall (isPhoto : bool) (p : ParticleData),
     exists b : bool,
       isTargetPhoto isPhoto p (activePhotoIndex s)
         (photoParticles (photos s)) = Normal b)
  /\ match activePhotoIndex s with
     | None => targets s = []
     | Some i =>
         exists u : string,
           nth_error (photos s) i = Some u
           /\ targets s = [{| id := i; photoUrl := u |}]
     end
  /\ (mode s <> PHOTO_VIEW -> modeEffectPending s = false ->
      targets s = []).
Proof.
  intros R. destruct (reachable_consistent s R) as (_ & I2 & I3).
  assert (T : match activePhotoIndex s with
              | None => targets s = []
              | Some i =>
                  exists u : string,
                    nth_error (photos s) i = Some u
                    /\ targets s = [{| id := i; photoUrl := u |}]
              end).
  { unfold targets. destruct (activePhotoIndex s) as [i|] eqn:A.
    - specialize (I3 i eq_refl).
      destruct (nth_error (photos s) i) as [u|] eqn:E;
        [|apply nth_error_None in E; lia].
      exists u. split; [reflexivity|].
      rewrite (filter_ext _ (fun p => (0 + i =? id p)%nat)).
      + destruct (photos s) as [|u0 urls] eqn:P; [destruct i; discriminate|].
        unfold photoParticles. apply (filter_id_hit (u0 :: urls) 0 i u E).
      + intros p. unfold isTargetPhoto. cbn [negb].
        rewrite (photoParticles_nth (photos s) i u E). reflexivity.
    - apply filter_none. intros p _. reflexivity. }
  split; [|split; [exact T|]].
  - intros isPhoto p. unfold isTargetPhoto.
    destruct isPhoto; cbn [negb]; [|eexists; reflexivity].
    destruct (activePhotoIndex s) as [i|] eqn:A; [|eexists; reflexivity].
    specialize (I3 i eq_refl).
    destruct (nth_error (photos s) i) as [u|] eqn:E;
      [|apply nth_error_None in E; lia].
    rewrite (photoParticles_nth (photos s) i u E). eexists. reflexivity.
  - intros M P. rewrite (I2 P M) in T. exact T.
Qed.

(** X14, on the store that views the uploaded photo. *)
Lemma render_marks_the_selection_witness :
  targets viewingStore = [{| id := 0; photoUrl := "a"%string |}].
Proof.
  destruct (render_marks_the_selection viewingStore viewingStore_reachable)
    as (_ & T & _).
  destruct T as (u & E & T). injection E as <-. exact T.
Defined.

(** **** Decorations *)

(** X15 — decoration colours.  For every value of [Math.random()] the
    lookup [COLORS[Math.floor(Math.random() * COLORS.length)]] stays
    inside the palette: the colour of a decoration is never [undefined],
    and each of the four colours is reached by some value. *)
Theorem pickColor_in_palette :
  (forall random : Q,
     unitDraw random ->
     exists c : string, pickColor random = Some c /\ In c COLORS)
  /\ (forall c : string,
        In c COLORS ->
        exists random : Q, unitDraw random /\ pickColor random = Some c).
Proof.
  split.
  - intros random U. unfold pickColor.
    pose proof (randomIndex_lt random (List.length COLORS) U) as B.
    destruct (nth_error COLORS (randomIndex random (List.length COLORS)))
      as [c|] eqn:E.
    + exists c. split; [reflexivity|]. apply (nth_error_In _ _ E).
    + apply nth_error_None in E. cbn in B, E. lia.
  - intros c H. apply In_nth_error in H as [i E].
    assert (L : i < List.length COLORS)
      by (apply nth_error_Some; rewrite E; discriminate).
    destruct (randomIndex_hits (List.length COLORS) i L) as [U R].
    exists (Z.of_nat i # Pos.of_nat (List.length COLORS))%Q.
    split; [exact U|]. unfold pickColor. rewrite R. exact E.
Qed.

(** X15, on the draw one half. *)
Lemma pickColor_in_palette_witness :
  exists c : string, pickColor half = Some c /\ In c COLORS.
Proof.
  apply (proj1 pickColor_in_palette half). apply unitDraw_half.
Defined.

Lemma tree_layout_check :
  forallb (fun i =>
             (- 7.5 <=? treeY i)%float && (treeY i <? 7.5)%float
             && (0 <? treeRadius i)%float && (treeRadius i <=? 6)%float
             && ((COUNT <=? S i)%nat
                 || (treeY i <? treeY (S i))%float
                    && (treeRadius (S i) <? treeRadius i)%float))
          (seq 0 COUNT) = true.
Proof. vm_compute. reflexivity. Qed.

(** X16 — the cone of decorations.  Each of the 400 decorations sits at a
    height within the tree, from [-TREE_HEIGHT / 2] up to but not
    reaching [TREE_HEIGHT / 2], on a spiral whose radius is positive and
    at most [TREE_RADIUS_BASE]; from one decoration to the next the
    height strictly grows and the radius strictly shrinks. *)
Theorem tree_layout_bounds (i : nat) :
  i < COUNT ->
  (- 7.5 <=? treeY i)%float = true
  /\ (treeY i <? 7.5)%float = true
  /\ (0 <? treeRadius i)%float = true
  /\ (treeRadius i <=? 6)%float = true
  /\ (S i < COUNT ->
      (treeY i <? treeY (S i))%float = true
      /\ (treeRadius (S i) <? treeRadius i)%float = true).
Proof.
  intros H.
  pose proof (proj1 (forallb_forall _ _) tree_layout_check i) as C.
  cbv beta in C.
  assert (I : In i (seq 0 COUNT)) by (apply in_seq; lia).
  specialize (C I).
  apply andb_true_iff in C as [C N].
  apply andb_true_iff in C as [C R6].
  apply andb_true_iff in C as [C R0].
  apply andb_true_iff in C as [Y0 Y1].
  split; [exact Y0|]. split; [exact Y1|]. split; [exact R0|].
  split; [exact R6|]. intros L.
  apply orb_true_iff in N as [N|N]; [apply Nat.leb_le in N; lia|].
  apply andb_true_iff in N. exact N.
Qed.

(** X16, on the topmost decoration. *)
Lemma tree_layout_bounds_witness :
  (treeY 399 <? 7.5)%float = true /\ (0 <? treeRadius 399)%float = true.
Proof.
  destruct (tree_layout_bounds 399) as (_ & Y & Rp & _).
  - unfold COUNT. lia.
  - split; [exact Y | exact Rp].
Defined.

(** X17, after a palm that left the image. *)
Lemma published_absent_signal_inert_witness :
  mode (onSignal half
          (track Math_hypot
             [frameOf openPalm; {| multiHandLandmarks := Some [] |}])
          (scattered ["a"%string])) = SCATTER.
Proof.
  apply (published_absent_signal_inert Math_hypot
           [frameOf openPalm; {| multiHandLandmarks := Some [] |}] half
           (scattered ["a"%string])).
  reflexivity.
Defined.

(** X18, on a stale fist in [PHOTO_VIEW]. *)
Lemma absent_signal_inert_unless_pinch_witness :
  mode (onSignal half (signal FIST false) viewingStore) = PHOTO_VIEW.
Proof.
  apply (absent_signal_inert_unless_pinch half (signal FIST false)
           viewingStore); [reflexivity | discriminate].
Defined.

(** **** A frame before the effect *)

Lemma Scheduled_flushEffects_reachable (s : Scheduled.Store) :
  Scheduled.reachable s -> Scheduled.reachable (Scheduled.flushEffects s).
Proof.
  intros R. unfold Scheduled.flushEffects.
  induction (List.length (Scheduled.effects s)) as [|n IH]; [exact R|].
  cbn [Nat.iter].
  eapply Scheduled.reach_step; [exact IH | apply Scheduled.step_effect].
Qed.

(** X19 — a frame before the effect.  When [useFrame] selects a photo
    while the [mode] effect of a render outside [PHOTO_VIEW] is still
    due, that effect clears the selection afterwards: once the due
    effects have run the store is in [PHOTO_VIEW] with nothing selected,
    and it is a reachable store. *)
Theorem selection_lost_to_a_due_effect (g : bool) (random : Q)
    (h : HandData) (s : Scheduled.Store) :
  Scheduled.reachable s -> unitDraw random ->
  Scheduled.mode s <> PHOTO_VIEW ->
  Scheduled.mode (Scheduled.stepFrame g random h s) = PHOTO_VIEW ->
  existsb (fun c => negb (AppMode_eqb c PHOTO_VIEW)) (Scheduled.effects s)
  = true ->
  Scheduled.activePhotoIndex (Scheduled.stepFrame g random h s) <> None
  /\ Scheduled.reachable
       (Scheduled.flushEffects (Scheduled.stepFrame g random h s))
  /\ Scheduled.mode
       (Scheduled.flushEffects (Scheduled.stepFrame g random h s))
     = PHOTO_VIEW
  /\ Scheduled.activePhotoIndex
       (Scheduled.flushEffects (Scheduled.stepFrame g random h s)) = None
  /\ Scheduled.effects
       (Scheduled.flushEffects (Scheduled.stepFrame g random h s)) = [].
Proof.
  intros R U N M D.
  assert (R' : Scheduled.reachable
                 (Scheduled.flushEffects (Scheduled.stepFrame g random h s))).
  { apply Scheduled_flushEffects_reachable.
    eapply Scheduled.reach_step; [exact R | apply Scheduled.step_frame, U]. }
  revert R' M. destruct s as [m ps a e].
  cbn [Scheduled.mode Scheduled.effects] in N, D.
  rewrite Scheduled_stepFrame_mk.
  destruct (g && GestureType_eqb (gesture h) PINCH && AppMode_eqb m SCATTER
            && match a with None => true | Some _ => false end
            && (0 <? List.length ps));
    [|intros _ M; cbn in M; contradiction N].
  rewrite Scheduled_flushEffects_mk, existsb_app, D.
  intros R' _. cbn [orb]. split; [discriminate|]. split; [exact R'|].
  repeat split.
Qed.

(** X19, on a pinch that arrives with the effect of the [SCATTER] render
    still due. *)
Lemma selection_lost_to_a_due_effect_witness :
  Scheduled.mode
    (Scheduled.flushEffects
       (Scheduled.stepFrame true half (signal PINCH true)
          Scheduled.scatteredStore)) = PHOTO_VIEW
  /\ Scheduled.activePhotoIndex
       (Scheduled.flushEffects
          (Scheduled.stepFrame true half (signal PINCH true)
             Scheduled.scatteredStore)) = None.
Proof.
  destruct (selection_lost_to_a_due_effect true half (signal PINCH true)
              Scheduled.scatteredStore) as (_ & _ & M & A & _).
  - unfold Scheduled.scatteredStore.
    repeat first [ eapply Scheduled.reach_step;
                   [| first [ apply Scheduled.step_effect
                            | apply Scheduled.step_app
                            | apply Scheduled.step_upload ] ]
                 | apply Scheduled.reach_init ].
  - apply unitDraw_half.
  - discriminate.
  - reflexivity.
  - reflexivity.
  - split; [exact M | exact A].
Defined.
